(** * The out-of-core tensor store, batch planner and polarizability pipeline
      of [pyscf/dh]

    A shallow embedding of [dh/dhutil.py] and of the orchestrator of
    [dh/polar/rdfdh.py], followed by the properties established for them.

    Conventions of the embedding.
    - Python exceptions are values of [exn]; a computation that may raise
      returns a [result].
    - Python integers are [Z].  Python floats are IEEE 754 doubles where
      the code computes a chunk size from them ([Float64]: rounding to
      nearest-even, overflow to infinity, subnormals, NaN), with the
      exceptions Python raises on them; the entries of amplitude tensors
      are idealised as exact rationals [Q].
    - A numpy array is a heap object: the store holds references, and in-place
      writes go through the heap.  An [h5py.Dataset] is a handle into the
      backing HDF5 file, valid for the file session that produced it. *)

From Stdlib Require Import ZArith QArith Qround Qabs Qpower Lia Lqa.
From stdpp Require Import gmap strings list fin_maps.

Local Open Scope Z_scope.

(** ** Python exceptions and the error monad *)

Inductive exn : Set :=
  | KeyError
  | ValueError
  | AttributeError
  | IndexError
  | TypeError
  | ZeroDivisionError
  | OverflowError
  | DanglingReference.  (* a reference to an object that does not exist:
                           ruled out by Python, kept to make the model total *)

Inductive result (A : Type) : Type :=
  | Ok (a : A)
  | Raise (e : exn).
Arguments Ok {A} a.
Arguments Raise {A} e.

#[global] Instance result_ret : MRet result := λ A a, Ok a.
#[global] Instance result_bind : MBind result := λ A B k m,
  match m with
  | Ok a => k a
  | Raise e => Raise e
  end.

(** [try: body except (e1, e2): handler]: the handler runs on the state the
    body started from when the body raises a caught exception. *)
Definition try_except {A : Type} (body : result A) (caught : exn → bool)
    (handler : result A) : result A :=
  match body with
  | Ok a => Ok a
  | Raise e => if caught e then handler else Raise e
  end.

(** ** The batch planner *)

Module Batch.

(** [slice(start, stop)] with no step. *)
Record slice : Set := Slice { start : Z; stop : Z }.

(** Number of items of [range(lo, hi, step)], as CPython computes it. *)
Definition range_len (lo hi step : Z) : Z :=
  if 0 <? step then
    if lo <? hi then (hi - lo - 1) / step + 1 else 0
  else
    if hi <? lo then (lo - hi - 1) / (- step) + 1 else 0.

(** [list(range(lo, hi, step))]; a zero step is a [ValueError]. *)
Definition range (lo hi step : Z) : result (list Z) :=
  if step =? 0 then Raise ValueError
  else Ok (map (λ i : nat, lo + Z.of_nat i * step)
               (seq 0 (Z.to_nat (range_len lo hi step)))).

(** [[slice(i, (i + nbatch) if i + nbatch < maxval else maxval)
      for i in range(minval, maxval, nbatch)]] *)
Definition gen_batch (minval maxval nbatch : Z) : result (list slice) :=
  r ← range minval maxval nbatch;
  Ok (map (λ i, Slice i (if i + nbatch <? maxval then i + nbatch else maxval)) r).

(** The indices a slice selects in a long enough axis, for
    [0 <= start <= stop]. *)
Definition indices (s : slice) : list Z :=
  map (λ i : nat, start s + Z.of_nat i) (seq 0 (Z.to_nat (stop s - start s))).

(** [tiles a b l]: the slices of [l] are non-empty, the first starts at
    [a], each next one starts where the previous one stops, and the last
    one stops at [b]. *)
Fixpoint tiles (a b : Z) (l : list slice) : Prop :=
  match l with
  | [] => a = b
  | s :: l' => start s = a ∧ a < stop s ∧ tiles (stop s) b l'
  end.

(** [chunked c l]: every slice of [l] but the last has length [c], and
    the last one has length at most [c]. *)
Fixpoint chunked (c : Z) (l : list slice) : Prop :=
  match l with
  | [] => True
  | s :: l' =>
      match l' with
      | [] => stop s - start s ≤ c
      | _ :: _ => stop s - start s = c ∧ chunked c l'
      end
  end.

(** The slices built from the first [n] items of [range(lo, hi, step)]
    (used to reason about [gen_batch] by induction on [n]). *)
Definition batches (lo hi step : Z) (n : nat) : list slice :=
  map (λ i, Slice i (if i + step <? hi then i + step else hi))
      (map (λ i : nat, lo + Z.of_nat i * step) (seq 0 n)).

End Batch.

(** ** Python floats: IEEE 754 binary64 *)

Module Float64.
Local Open Scope Q_scope.

(** A double is NaN, an infinity, or a finite number: a finite double is
    held by its exact value, a rational of the form m * 2 ^ e with
    |m| < 2 ^ 53 and -1074 <= e <= 971.  The two zeros are one value: the
    arithmetic used here never tells them apart (Python raises before a
    division by zero of either sign). *)
Inductive float : Type :=
  | Nan
  | Inf (negative : bool)
  | Fin (v : Q).

(** Exponent of the smallest subnormal; first power of two out of range. *)
Definition emin : Z := -1074.
Definition emax : Z := 1024.

Definition Qltb (a b : Q) : bool := negb (Qle_bool b a).

(** Truncation toward zero. *)
Definition Qtrunc (q : Q) : Z := Z.quot (Qnum q) (Zpos (Qden q)).

(** [floor (log2 a)] for [a > 0]. *)
Definition ilog2 (a : Q) : Z :=
  let k := (Z.log2 (Qnum a) - Z.log2 (Zpos (Qden a)))%Z in
  if Qle_bool (2 ^ k) a then k else (k - 1)%Z.

(** The nearest integer, ties to the even one. *)
Definition rne (a : Q) : Z :=
  let f := Qfloor a in
  match Qcompare (a - inject_Z f) (1 # 2) with
  | Lt => f
  | Eq => if Z.even f then f else (f + 1)%Z
  | Gt => (f + 1)%Z
  end.

(** The nearest multiple of [2 ^ e] for a positive [a], where [e] leaves
    53 significant bits and is at least [emin] (gradual underflow). *)
Definition nearest (a : Q) : Q :=
  let e := Z.max (ilog2 a - 52) emin in
  inject_Z (rne (a / 2 ^ e)) * 2 ^ e.

(** Rounding to nearest, ties to even, with overflow to infinity: the
    double that every arithmetic operation returns for the exact result
    [q]. *)
Definition round (q : Q) : float :=
  if Qeq_bool q 0 then Fin 0 else
  let v := Qred (nearest (Qabs q)) in
  if Qle_bool (2 ^ emax) v then Inf (Qltb q 0)
  else Fin (if Qltb q 0 then - v else v).

(** A double, as opposed to a [Fin] of a rational that is none. *)
Definition is_double (x : float) : bool :=
  match x with
  | Fin v => match round v with Fin w => Qeq_bool v w | _ => false end
  | _ => true
  end.

Definition is_zero (x : float) : bool :=
  match x with Fin v => Qeq_bool v 0 | _ => false end.

(** [x < y]: false as soon as one side is NaN. *)
Definition flt (x y : float) : bool :=
  match x, y with
  | Nan, _ | _, Nan => false
  | Inf s, Inf s' => s && negb s'
  | Inf s, Fin _ => s
  | Fin _, Inf s => negb s
  | Fin a, Fin b => Qltb a b
  end.

Definition fmul (x y : float) : float :=
  match x, y with
  | Nan, _ | _, Nan => Nan
  | Inf s, Inf s' => Inf (xorb s s')
  | Inf s, Fin v | Fin v, Inf s =>
      if Qeq_bool v 0 then Nan else Inf (xorb s (Qltb v 0))
  | Fin a, Fin b => round (a * b)
  end.

(** Division by a divisor that is not zero (Python tests the divisor
    first); the zero divisor is answered NaN to keep the function total. *)
Definition fdiv (x y : float) : float :=
  match x, y with
  | Nan, _ | _, Nan => Nan
  | Inf _, Inf _ => Nan
  | Inf s, Fin v => Inf (xorb s (Qltb v 0))
  | Fin _, Inf _ => Fin 0
  | Fin a, Fin b => if Qeq_bool b 0 then Nan else round (a / b)
  end.

Definition fadd (x y : float) : float :=
  match x, y with
  | Nan, _ | _, Nan => Nan
  | Inf s, Inf s' => if Bool.eqb s s' then Inf s else Nan
  | Inf s, Fin _ | Fin _, Inf s => Inf s
  | Fin a, Fin b => round (a + b)
  end.

Definition fneg (x : float) : float :=
  match x with
  | Nan => Nan
  | Inf s => Inf (negb s)
  | Fin v => Fin (- v)
  end.

Definition fsub (x y : float) : float := fadd x (fneg y).

(** C's [fmod]: exact, with the sign of [x]. *)
Definition fmod (x y : float) : float :=
  match x, y with
  | Fin a, Fin b =>
      if Qeq_bool b 0 then Nan
      else Fin (Qred (a - b * inject_Z (Qtrunc (a / b))))
  | Fin a, Inf _ => Fin a
  | _, _ => Nan
  end.

(** C's [floor]. *)
Definition floor (x : float) : float :=
  match x with
  | Fin v => Fin (inject_Z (Qfloor v))
  | _ => x
  end.

(** [vx // wx] on floats, as CPython computes it:
    [[if wx == 0.0: raise ZeroDivisionError
      mod = fmod(vx, wx); div = (vx - mod) / wx
      if mod: if (wx < 0) != (mod < 0): div -= 1.0
      if div: floordiv = floor(div)
              if div - floordiv > 0.5: floordiv += 1.0
      else: floordiv = copysign(0.0, vx / wx)]] *)
Definition float_floor_div (vx wx : float) : result float :=
  if is_zero wx then Raise ZeroDivisionError else
  let m := fmod vx wx in
  let div := fdiv (fsub vx m) wx in
  let div :=
    if negb (is_zero m) && negb (Bool.eqb (flt wx (Fin 0)) (flt m (Fin 0)))
    then fsub div (Fin 1) else div in
  if negb (is_zero div) then
    let floordiv := floor div in
    if flt (Fin (1 # 2)) (fsub div floordiv) then Ok (fadd floordiv (Fin 1))
    else Ok floordiv
  else Ok (Fin 0).

End Float64.

(** ** Python numbers and their arithmetic *)

Module Num.
Import Float64.

(** An [int] (unbounded) or a [float]. *)
Inductive number : Type :=
  | PyInt (z : Z)
  | PyFloat (x : float).

(** [float(z)]: the nearest double, [OverflowError] past the largest. *)
Definition of_int (z : Z) : result float :=
  match round (inject_Z z) with
  | Inf _ => Raise OverflowError
  | x => Ok x
  end.

(** The conversion a mixed operation applies to its operands. *)
Definition to_float (x : number) : result float :=
  match x with
  | PyInt z => of_int z
  | PyFloat f => Ok f
  end.

(** [x * y] *)
Definition mul (x y : number) : result number :=
  match x, y with
  | PyInt a, PyInt b => Ok (PyInt (a * b))
  | _, _ => a ← to_float x; b ← to_float y; Ok (PyFloat (fmul a b))
  end.

(** [x - y] *)
Definition sub (x y : number) : result number :=
  match x, y with
  | PyInt a, PyInt b => Ok (PyInt (a - b))
  | _, _ => a ← to_float x; b ← to_float y; Ok (PyFloat (fsub a b))
  end.

(** [x / y]: on two ints the correctly rounded quotient, [OverflowError]
    when it is out of range. *)
Definition truediv (x y : number) : result number :=
  match x, y with
  | PyInt a, PyInt b =>
      if (b =? 0)%Z then Raise ZeroDivisionError
      else match round (inject_Z a / inject_Z b) with
           | Inf _ => Raise OverflowError
           | q => Ok (PyFloat q)
           end
  | _, _ =>
      a ← to_float x; b ← to_float y;
      if is_zero b then Raise ZeroDivisionError else Ok (PyFloat (fdiv a b))
  end.

(** [x // y] *)
Definition floordiv (x y : number) : result number :=
  match x, y with
  | PyInt a, PyInt b =>
      if (b =? 0)%Z then Raise ZeroDivisionError else Ok (PyInt (a / b))
  | _, _ =>
      a ← to_float x; b ← to_float y;
      q ← float_floor_div a b; Ok (PyFloat q)
  end.

(** [x > y]: an int and a float are compared by their exact values. *)
Definition gt (x y : number) : bool :=
  match x, y with
  | PyInt a, PyInt b => (b <? a)%Z
  | PyInt a, PyFloat g => flt g (Fin (inject_Z a))
  | PyFloat f, PyInt b => flt (Fin (inject_Z b)) f
  | PyFloat f, PyFloat g => flt g f
  end.

(** [max(a, b)]: [b] when [b > a], else [a]. *)
Definition max (a b : number) : number := if gt b a then b else a.

(** [int(x)]: truncation toward zero; [ValueError] on NaN,
    [OverflowError] on an infinity. *)
Definition int (x : number) : result Z :=
  match x with
  | PyInt z => Ok z
  | PyFloat Nan => Raise ValueError
  | PyFloat (Inf _) => Raise OverflowError
  | PyFloat (Fin v) => Ok (Qtrunc v)
  end.

(** The value of a finite number. *)
Definition value (x : number) : option Q :=
  match x with
  | PyInt z => Some (inject_Z z)
  | PyFloat (Fin v) => Some v
  | PyFloat _ => None
  end.

End Num.

(** ** Chunk size from a memory budget *)

Module Chunk.
Import Float64 Num.
Local Open Scope Q_scope.

(** [max_memory = 0.8 * mem_avail - pre_flop * 8 / 1024 ** 2], the
    literal [0.8] being the double nearest to 8/10. *)
Definition max_memory (mem_avail pre_flop : number) : result number :=
  a ← mul (PyFloat (round (8 # 10))) mem_avail;
  b ← (n ← mul pre_flop (PyInt 8); truediv n (PyInt (1024 ^ 2)));
  sub a b.

(** [unit_flop * 8 / 1024 ** 2] *)
Definition unit_memory (unit_flop : number) : result number :=
  n ← mul unit_flop (PyInt 8);
  truediv n (PyInt (1024 ^ 2)).

(** [[max_memory = 0.8 * mem_avail - pre_flop * 8 / 1024 ** 2
      batch_size = int(max(max_memory // (unit_flop * 8 / 1024 ** 2), 1))]]
    (the debugging [print] is left out). *)
Definition calc_batch_size (unit_flop mem_avail pre_flop : number) : result Z :=
  max_memory ← max_memory mem_avail pre_flop;
  u ← unit_memory unit_flop;
  q ← floordiv max_memory u;
  int (max q (PyInt 1)).

(** Arguments of moderate size: a finite number of magnitude at most
    [2 ^ 500], and for a unit cost one that is at least [2 ^ -500]. *)
Definition moderate (x : number) : bool :=
  match value x with
  | Some v => Qle_bool (Qabs v) (2 ^ 500)
  | None => false
  end.

Definition moderate_pos (x : number) : bool :=
  match value x with
  | Some v => Qle_bool (2 ^ (-500)) v && Qle_bool v (2 ^ 500)
  | None => false
  end.


End Chunk.

(** ** numpy arrays and Python values *)

(** Addresses of heap objects and of datasets inside an HDF5 file. *)
Abbreviation loc := positive.

Module Np.

(** An array by content: its shape and its elements in C order. *)
Record ndarray : Type := NdArray { shape : list Z; buf : list Q }.

(** Number of elements of an array of shape [sh]. *)
Definition size_of (sh : list Z) : Z := foldr Z.mul 1 sh.

(** [np.zeros(shape)]; a negative dimension is a [ValueError]. *)
Definition zeros (sh : list Z) : result ndarray :=
  if forallb (λ d, 0 <=? d) sh
  then Ok (NdArray sh (repeat 0%Q (Z.to_nat (size_of sh))))
  else Raise ValueError.

(** The content of [a] after [a[:] = 0]. *)
Definition fill_zero (a : ndarray) : ndarray :=
  NdArray (shape a) (map (λ _, 0%Q) (buf a)).

Definition all_zero (a : ndarray) : Prop := Forall (λ x, x = 0%Q) (buf a).

End Np.

Import Np.

(** Python objects other than arrays and datasets: they have no [shape]
    attribute. *)
Inductive pyobj : Type :=
  | PyNone
  | PySeq (a : ndarray)   (* a nested list or tuple of numbers; numpy
                             converts it to the array [a] *)
  | PyOpaque (n : nat).   (* anything else; numpy wraps it, and cannot
                             convert it to floats *)

(** What a store entry, or an argument of [create], can be.  [Arr] and
    [Dset] are references: two equal values are the same object. *)
Inductive value : Type :=
  | Arr (l : loc)                (* a [numpy.ndarray] on the heap *)
  | Dset (sess : nat) (d : loc)  (* an [h5py.Dataset] handle, opened in file
                                    session [sess], on the dataset at [d] *)
  | Obj (o : pyobj).

Definition is_Dataset (v : value) : bool :=
  match v with Dset _ _ => true | _ => false end.

Definition is_None (v : value) : bool :=
  match v with Obj PyNone => true | _ => false end.

(** The result of [np.asarray]. *)
Inductive dense : Type :=
  | Dense (a : ndarray)
  | Boxed (o : pyobj).   (* a 0-d array of dtype object holding [o] *)

(** ** The HDF5 container, as h5py presents it

    Dataset names are taken in one flat name space.  Unlinking a name does
    not destroy the dataset it named: open handles keep reading it. *)

Module H5.

Record file : Type := File {
  links : gmap string loc;    (* name -> dataset *)
  objs : gmap loc ndarray     (* dataset storage *)
}.

Definition empty : file := File ∅ ∅.

(** [f.create_dataset(name, shape=shape, dtype=float64, data=data)], with
    [data] already converted to an array.  The extent comes from [shape]
    or from [data]; a new dataset is zero-filled; an existing name is a
    [ValueError] (name already exists). *)
Definition create_dataset (name : string) (shape : option (list Z))
    (data : option ndarray) (f : file) : result file :=
  content ← match data, shape with
            | None, None => Raise TypeError
            | None, Some sh => zeros sh
            | Some a, None => Ok a
            | Some a, Some sh =>
                if decide (size_of sh = size_of (Np.shape a))
                then Ok (NdArray sh (buf a))
                else Raise ValueError
            end;
  match links f !! name with
  | Some _ => Raise ValueError
  | None =>
      let d := fresh (dom (objs f)) in
      Ok (File (<[name := d]> (links f)) (<[d := content]> (objs f)))
  end.

(** [del f[name]]: a [KeyError] when nothing is linked under [name]. *)
Definition unlink (name : string) (f : file) : result file :=
  match links f !! name with
  | Some _ => Ok (File (delete name (links f)) (objs f))
  | None => Raise KeyError
  end.

End H5.

(** ** The hybrid store *)

Module HybridDict.

(** A store and the part of the process it lives in: the mapping itself,
    the numpy arrays its entries may refer to, the backing file, and the
    number of the current open session of that file ([File.close] makes
    every handle of the session invalid). *)
Record store : Type := Store {
  dict : gmap string value;
  heap : gmap loc ndarray;
  chkfile : H5.file;
  session : nat
}.

Definition set_dict (m : gmap string value) (s : store) : store :=
  Store m (heap s) (chkfile s) (session s).
Definition set_heap (h : gmap loc ndarray) (s : store) : store :=
  Store (dict s) h (chkfile s) (session s).
Definition set_chkfile (f : H5.file) (s : store) : store :=
  Store (dict s) (heap s) f (session s).

(** [HybridDict(chkfile_name)]: an empty mapping over the file found (or
    just created) at that path. *)
Definition init (h : gmap loc ndarray) (f : H5.file) : store :=
  Store ∅ h f 0.

(** The array a value refers to; reading through a handle of a closed
    session is a [ValueError]. *)
Definition deref (v : value) (s : store) : result ndarray :=
  match v with
  | Arr l =>
      match heap s !! l with
      | Some a => Ok a
      | None => Raise DanglingReference
      end
  | Dset ss d =>
      if decide (ss = session s) then
        match H5.objs (chkfile s) !! d with
        | Some a => Ok a
        | None => Raise DanglingReference
        end
      else Raise ValueError
  | Obj _ => Raise AttributeError
  end.

(** [v.shape] *)
Definition get_shape (v : value) (s : store) : result (list Z) :=
  a ← deref v s; Ok (shape a).

(** [np.asarray(v)] *)
Definition asarray (v : value) (s : store) : result dense :=
  match v with
  | Obj (PySeq a) => Ok (Dense a)
  | Obj o => Ok (Boxed o)
  | _ => a ← deref v s; Ok (Dense a)
  end.

(** An in-place write through the array reference [v], as [v[...] = x] or
    [v += x] do: the elements of the array it refers to become [b']; its
    shape stays. *)
Definition write (v : value) (b' : list Q) (s : store) : result store :=
  a ← deref v s;
  let a' := NdArray (shape a) b' in
  match v with
  | Arr l => Ok (set_heap (<[l := a']> (heap s)) s)
  | Dset _ d =>
      Ok (set_chkfile (H5.File (H5.links (chkfile s))
                               (<[d := a']> (H5.objs (chkfile s)))) s)
  | Obj _ => Raise AttributeError
  end.

(** [v[:] = 0].  A 0-d numpy array rejects the slice with an
    [IndexError], a scalar dataset with a [ValueError]. *)
Definition zero_fill (v : value) (s : store) : result store :=
  a ← deref v s;
  match shape a with
  | [] => Raise (if is_Dataset v then ValueError else IndexError)
  | _ :: _ => write v (buf (fill_zero a)) s
  end.

(** [self.get(key)] *)
Definition get (key : string) (s : store) : value :=
  default (Obj PyNone) (dict s !! key).

(** [self.setdefault(key, v)] *)
Definition setdefault (key : string) (v : value) (s : store) : store :=
  match dict s !! key with
  | Some _ => s
  | None => set_dict (<[key := v]> (dict s)) s
  end.

(** [[val = self.pop(key)
      if isinstance(val, h5py.Dataset):
          try: del self.chkfile[key]
          except KeyError: pass]] *)
Definition delete (key : string) (s : store) : result store :=
  match dict s !! key with
  | None => Raise KeyError
  | Some val =>
      let s1 := set_dict (base.delete key (dict s)) s in
      if is_Dataset val then
        try_except
          (f ← H5.unlink key (chkfile s1); Ok (set_chkfile f s1))
          (λ e, match e with KeyError => true | _ => false end)
          (Ok s1)
      else Ok s1
  end.

(** [np.asarray(self.get(key))] *)
Definition load (key : string) (s : store) : result dense :=
  asarray (get key s) s.

(** The two ways the first part of [create] ends: [return self.get(name)]
    or falling through to the allocation. *)
Inductive flow : Type :=
  | Return (r : value * store)
  | Continue (s : store).

(** The data array handed to [create_dataset]: h5py converts [data] to a
    float array. *)
Definition dataset_data (data : value) (s : store) : result (option ndarray) :=
  if is_None data then Ok None
  else d ← asarray data s;
       match d with
       | Dense a => Ok (Some a)
       | Boxed _ => Raise TypeError
       end.

(** The allocating branches of [create]:
    [[if not incore:
          self.chkfile.create_dataset(name, shape=shape, dtype=dtype, data=data)
          self.setdefault(name, self.chkfile[name])
      elif data is not None:
          self.setdefault(name, data)
      elif data is None and shape is not None:
          self.setdefault(name, np.zeros(shape=shape, dtype=dtype))
      else:
          raise ValueError("Could not handle create!")]] *)
Definition allocate (name : string) (data : value) (incore : bool)
    (shape : option (list Z)) (s : store) : result store :=
  if negb incore then
    a ← dataset_data data s;
    f ← H5.create_dataset name shape a (chkfile s);
    let s1 := set_chkfile f s in
    match H5.links f !! name with
    | Some d => Ok (setdefault name (Dset (session s1) d) s1)
    | None => Raise KeyError
    end
  else if negb (is_None data) then
    Ok (setdefault name data s)
  else
    match shape with
    | Some sh =>
        a ← zeros sh;
        let l := fresh (dom (heap s)) in
        Ok (setdefault name (Arr l) (set_heap (<[l := a]> (heap s)) s))
    | None => Raise ValueError
    end.

(** [create(name, data=None, incore=True, shape=None)]; [shape] is a tuple.
    [dtype] and the extra keywords only reach numpy and h5py and are left
    out.
    [[if name in self:
          try:
              if self[name].shape == shape:
                  self[name][:] = 0
                  return self.get(name)
          except (ValueError, AttributeError):
              self.delete(name)
      ...
      return self.get(name)]] *)
Definition create (name : string) (data : value) (incore : bool)
    (shape : option (list Z)) (s : store) : result (value * store) :=
  r ← match dict s !! name with
      | Some v =>
          try_except
            (sh ← get_shape v s;
             if decide (Some sh = shape) then
               s' ← zero_fill v s; Ok (Return (get name s', s'))
             else Ok (Continue s))
            (λ e, match e with ValueError | AttributeError => true
                          | _ => false end)
            (s' ← delete name s; Ok (Continue s'))
      | None => Ok (Continue s)
      end;
  match r with
  | Return r => Ok r
  | Continue s =>
      s' ← allocate name data incore shape s; Ok (get name s', s')
  end.

(** [HybridDict.get_dataset_keys(f)]: the names of the datasets of [f]. *)
Definition get_dataset_keys (f : H5.file) : gset string := dom (H5.links f).

(** [{key: f[key] for key in HybridDict.get_dataset_keys(f)}], the handles
    being opened in session [sess]. *)
Definition dataset_handles (sess : nat) (f : H5.file) : gmap string value :=
  Dset sess <$> H5.links f.

(** The arrays the entries of [m] refer to. *)
Definition array_refs (m : gmap string value) : gset loc :=
  list_to_set
    (omap (λ kv, match kv.2 with Arr l => Some l | _ => None end)
          (map_to_list m)).

(** A pickled mapping: its entries, and the arrays they refer to by
    content.  Unpickling makes new arrays; they are given the addresses
    their originals had, so that entries sharing an array still do. *)
Record pickled : Type := Pickled {
  pk_dict : gmap string value;
  pk_heap : gmap loc ndarray
}.

Definition pickle_dump (m : gmap string value) (h : gmap loc ndarray)
    : pickled :=
  Pickled m (filter (λ la, la.1 ∈ array_refs m) h).

(** The two files [dump] writes. *)
Record checkpoint : Type := Checkpoint {
  h5_file : H5.file;
  dat_file : pickled
}.

(** [dump(h5_path, dat_path)], the two paths being distinct and not the
    backing file:
    [[dct = {key: val for key, val in self.items()
             if not isinstance(val, h5py.Dataset)}
      pickle.dump(dct, open(dat_path))
      self.chkfile.close(); shutil.copy(self.chkfile_name, h5_path)
      self.chkfile = h5py.File(self.chkfile_name, "r+")
      for key in get_dataset_keys(self.chkfile): self[key] = self.chkfile[key]]] *)
Definition dump (s : store) : checkpoint * store :=
  let dct := filter (λ kv, is_Dataset kv.2 = false) (dict s) in
  let sess := S (session s) in
  (Checkpoint (chkfile s) (pickle_dump dct (heap s)),
   Store (dataset_handles sess (chkfile s) ∪ dict s) (heap s) (chkfile s) sess).

(** [pick(h5_path, dat_path)]:
    [[tensors = HybridDict(); tensors.chkfile.close()
      os.remove(file_name); shutil.copyfile(h5_path, file_name)
      tensors.chkfile = h5py.File(file_name, "r+")
      for key in get_dataset_keys(tensors.chkfile):
          tensors[key] = tensors.chkfile[key]
      tensors.update(pickle.load(open(dat_path)))]] *)
Definition pick (c : checkpoint) : store :=
  let t := init ∅ H5.empty in
  let sess := S (session t) in
  let t := Store (dict t) (heap t) (h5_file c) sess in
  let t := set_dict (dataset_handles sess (chkfile t) ∪ dict t) t in
  Store (pk_dict (dat_file c) ∪ dict t) (pk_heap (dat_file c) ∪ heap t)
        (chkfile t) (session t).

(** The entry a restored store holds for an entry [v] of the dumped one:
    handles are opened anew, other values are what was pickled. *)
Definition reopened (sess : nat) (v : value) : value :=
  match v with
  | Dset _ d => Dset sess d
  | _ => v
  end.

(** [consistent s]: every handle held by the store is live and is the
    dataset linked under its own key, and every dataset name of the
    backing file is a key of the store. *)
Definition handle_ok (s : store) (key : string) (v : value) : bool :=
  match v with
  | Dset ss d =>
      bool_decide (ss = session s)
      && bool_decide (H5.links (chkfile s) !! key = Some d)
  | _ => true
  end.

Definition consistent (s : store) : bool :=
  bool_decide (map_Forall (λ key v, handle_ok s key v = true) (dict s))
  && bool_decide (map_Forall (λ key (_ : loc), is_Some (dict s !! key))
                             (H5.links (chkfile s))).

End HybridDict.

(** ** The polarizability pipeline *)

Module Polar.

(** The methods [kernel] calls on the [Polar] object. *)
Inductive stage : Set :=
  | run_scf
  | prepare_H_1
  | prepare_integral
  | prepare_xc_kernel
  | prepare_pt2
  | prepare_lagrangian
  | prepare_D_r
  | prepare_U_1
  | prepare_dmU
  | prepare_polar_Ax1_gga
  | prepare_pdA_F_0_mo
  | prepare_pdA_Y_ia_ri
  | prepare_pt2_deriv
  | prepare_polar.

#[global] Instance stage_eq_dec : EqDecision stage.
Proof. solve_decision. Defined.

Definition before_branch : list stage :=
  [run_scf; prepare_H_1; prepare_integral; prepare_xc_kernel; prepare_pt2;
   prepare_lagrangian; prepare_D_r; prepare_U_1].
Definition gga_stages : list stage := [prepare_dmU; prepare_polar_Ax1_gga].
Definition after_branch : list stage :=
  [prepare_pdA_F_0_mo; prepare_pdA_Y_ia_ri; prepare_pt2_deriv; prepare_polar].

Definition schedule (gga : bool) : list stage :=
  before_branch ++ (if gga then gga_stages else []) ++ after_branch.

Section Kernel.
(** The [Polar] object with all it owns, the bodies of its methods, its
    [xc] attribute, and pyscf's [NumInt()._xc_type], which raises on a
    functional name it cannot classify. *)
Variable state : Type.
Variable exec : stage → state → result state.
Variable xc : state → string.
Variable xc_type : string → result string.

(** A run: the methods invoked so far, in order, and the object, or the
    exception that stopped the run. *)
Record run : Type := Run { trace : list stage; final : result state }.

(** [mf_dh.st()] *)
Definition call (st : stage) (r : run) : run :=
  match final r with
  | Ok mf => Run (trace r ++ [st]) (exec st mf)
  | Raise _ => r
  end.

(** [dft.numint.NumInt()._xc_type(mf_dh.xc) == "GGA"] *)
Definition is_gga (mf : state) : result bool :=
  ty ← xc_type (xc mf); Ok (String.eqb ty "GGA").

(** [kernel(mf_dh)], up to the final [return mf_dh.de]. *)
Definition kernel (mf_dh : state) : run :=
  let r := Run [] (Ok mf_dh) in
  let r := call run_scf r in
  let r := call prepare_H_1 r in
  let r := call prepare_integral r in
  let r := call prepare_xc_kernel r in
  let r := call prepare_pt2 r in
  let r := call prepare_lagrangian r in
  let r := call prepare_D_r r in
  let r := call prepare_U_1 r in
  let r := match final r with
           | Ok mf =>
               match is_gga mf with
               | Ok true =>
                   let r := call prepare_dmU r in
                   let r := call prepare_polar_Ax1_gga r in
                   r
               | Ok false => r
               | Raise e => Run (trace r) (Raise e)
               end
           | Raise _ => r
           end in
  let r := call prepare_pdA_F_0_mo r in
  let r := call prepare_pdA_Y_ia_ri r in
  let r := call prepare_pt2_deriv r in
  let r := call prepare_polar r in
  r.

(** Calling the methods of a list one after the other. *)
Definition calls (l : list stage) (r : run) : run :=
  fold_left (λ r st, call st r) l r.

End Kernel.

Arguments trace {state} r.
Arguments final {state} r.

End Polar.

(** ** The biorthogonalization of amplitudes *)

Module Biorth.
Local Open Scope Q_scope.

(** An amplitude tensor after [reshape(-1, n, n)]: entry [t b i j], the
    two trailing axes having the same extent. *)
Definition tensor : Type := nat → nat → nat → Q.

(** [lib.transpose(t, axes=(0, 2, 1))] *)
Definition transpose (t : tensor) : tensor := λ b i j, t b j i.
Definition scale (c : Q) (t : tensor) : tensor := λ b i j, c * t b i j.
Definition add (t u : tensor) : tensor := λ b i j, t b i j + u b i j.

Definition tol : Q := 1 # 10000000.

(** [[coef_0 = cc * (c_os + c_ss); coef_1 = - cc * c_ss
      if abs(coef_1) < 1e-7: return coef_0 * t_ijab
      else: res = transpose(t_ijab); res *= coef_1; res += coef_0 * t_ijab]] *)
Definition restricted_biorthogonalize (t_ijab : tensor) (cc c_os c_ss : Q)
    : tensor :=
  let coef_0 := cc * (c_os + c_ss) in
  let coef_1 := - cc * c_ss in
  if Qlt_le_dec (Qabs coef_1) tol then scale coef_0 t_ijab
  else add (scale coef_1 (transpose t_ijab)) (scale coef_0 t_ijab).

(** [cc * ((c_os + c_ss) * t_ijab - c_ss * t_ijab.swapaxes(-1, -2))] *)
Definition biorthogonal (t : tensor) (cc c_os c_ss : Q) : tensor :=
  λ b i j, cc * ((c_os + c_ss) * t b i j - c_ss * t b j i).

End Biorth.

(** ** Offsets of a block loop *)

Module Grid.
Import Batch.

(** The slices [slice(ip, ip + ngrid)] a loop over grid blocks visits:
    [[ip = 0
      for ao, mask, weight, _ in ni.block_loop(...):
          ngrid = weight.size
          ... [ip:ip+ngrid] ...
          ip += ngrid]]
    [sizes] are the [weight.size] of the blocks, in order. *)
Fixpoint block_slices (ip : Z) (sizes : list Z) : list slice :=
  match sizes with
  | [] => []
  | ngrid :: rest => Slice ip (ip + ngrid) :: block_slices (ip + ngrid) rest
  end.

End Grid.

(** ** Sizes of nested argument lists *)

Module Sizes.

(** An argument of [tot_size]: an array, a list or tuple of arguments, or
    an object that is neither an array nor iterable.  (A string, whose
    items are strings again, is not covered.) *)
#[local] Unset Elimination Schemes.
Inductive pyarg : Type :=
  | ANd (a : ndarray)
  | ASeq (l : list pyarg)
  | AOther (n : nat).
#[local] Set Elimination Schemes.

(** [a.size] *)
Definition size (a : ndarray) : Z := size_of (shape a).

(** What one item adds to [size] in the loop of [tot_size]:
    [[size = 0
      for i in args:
          if isinstance(i, np.ndarray): size += i.size
          else: size += tot_size of the items of i
      return size]]
    Unpacking an object that is not iterable is a [TypeError]. *)
Fixpoint item_size (i : pyarg) : result Z :=
  match i with
  | ANd a => Ok (size a)
  | ASeq args =>
      (fix loop (args : list pyarg) (size : Z) : result Z :=
         match args with
         | [] => Ok size
         | i :: rest => n ← item_size i; loop rest (size + n)
         end) args 0
  | AOther _ => Raise TypeError
  end.

(** [tot_size] applied to the arguments [args]. *)
Definition tot_size (args : list pyarg) : result Z := item_size (ASeq args).

(** The loop of [tot_size] from an intermediate [size] on. *)
Definition size_loop : list pyarg → Z → result Z :=
  fix loop (args : list pyarg) (size : Z) : result Z :=
    match args with
    | [] => Ok size
    | i :: rest => n ← item_size i; loop rest (size + n)
    end.

(** The arrays and other objects found in an argument, however deep. *)
Fixpoint leaves (i : pyarg) : list pyarg :=
  match i with
  | ASeq args =>
      (fix go (args : list pyarg) : list pyarg :=
         match args with
         | [] => []
         | i :: rest => leaves i ++ go rest
         end) args
  | _ => [i]
  end.

Definition leaves_of (args : list pyarg) : list pyarg := leaves (ASeq args).

Definition leaf_size (i : pyarg) : Z :=
  match i with ANd a => size a | _ => 0 end.

Definition is_array (i : pyarg) : bool :=
  match i with ANd _ => true | _ => false end.

(** The sum of the [size] of the arrays of a list. *)
Definition total_size (l : list pyarg) : Z := foldr (λ i n, leaf_size i + n) 0 l.

(** What the loop of [tot_size] gives from [size] on, read off the leaves
    [l] of the arguments left. *)
Definition leaves_result (size : Z) (l : list pyarg) : result Z :=
  if forallb is_array l then Ok (size + total_size l) else Raise TypeError.

End Sizes.

(** ** Doubly hybrid functionals *)

Module XC.
Import Stdlib.Strings.Ascii.
Local Open Scope Q_scope.

(** A row of [XC_DH_MAP]: [(xc_s, xc_n, cc, c_os, c_ss)]. *)
Record dh_params : Type := DhParams {
  xc_s : string;
  xc_n : option string;
  cc : Q;
  c_os : Q;
  c_ss : Q
}.

Definition XC_DH_MAP : gmap string dh_params :=
  list_to_map [
    ("mp2", DhParams "HF" None 1 1 1);
    ("xyg3", DhParams "B3LYPg"
       (Some "0.8033*HF - 0.0140*LDA + 0.2107*B88, 0.6789*LYP")
       (3211 # 10000) 1 1);
    ("xygjos", DhParams "B3LYPg"
       (Some "0.7731*HF + 0.2269*LDA, 0.2309*VWN3 + 0.2754*LYP")
       (4364 # 10000) 1 0);
    ("xdhpbe0", DhParams "PBE0" (Some "0.8335*HF + 0.1665*PBE, 0.5292*PBE")
       (5428 # 10000) 1 0);
    ("b2plyp", DhParams "0.53*HF + 0.47*B88, 0.73*LYP" None (27 # 100) 1 1);
    ("mpw2plyp", DhParams "0.55*HF + 0.45*mPW91, 0.75*LYP" None (25 # 100) 1 1);
    ("pbe0dh", DhParams "0.5*HF + 0.5*PBE, 0.875*PBE" None (125 # 1000) 1 1);
    ("pbeqidh", DhParams "0.693361*HF + 0.306639*PBE, 0.666667*PBE" None
       (333333 # 1000000) 1 1);
    ("pbe02", DhParams "0.793701*HF + 0.206299*PBE, 0.5*PBE" None
       (5 # 10) 1 1)
  ].

(** [s.replace(c, empty)] for a one-character [c] and the empty string. *)
Fixpoint remove_char (c : ascii) (s : string) : string :=
  match s with
  | EmptyString => EmptyString
  | String a s' =>
      if Ascii.eqb a c then remove_char c s' else String a (remove_char c s')
  end.

(** [s.lower()], strings being byte strings: the letters A to Z change. *)
Definition lower_char (a : ascii) : ascii :=
  let n := nat_of_ascii a in
  if ((65 <=? n) && (n <=? 90))%nat then ascii_of_nat (n + 32) else a.

Fixpoint lower (s : string) : string :=
  match s with
  | EmptyString => EmptyString
  | String a s' => String (lower_char a) (lower s')
  end.

(** [parse_xc_dh]: hyphens and underscores are removed from the name, then
    it is lowered, and it is looked up: [return XC_DH_MAP[xc_dh]]. *)
Definition parse_xc_dh (xc_dh : string) : result dh_params :=
  let xc_dh := lower (remove_char "_" (remove_char "-" xc_dh)) in
  match XC_DH_MAP !! xc_dh with
  | Some row => Ok row
  | None => Raise KeyError
  end.

End XC.

(** ** Growth of the heap and of the dataset storage *)

Module Frame.
Import HybridDict.

(** [extends s s']: the same file session, and every array and every
    dataset of [s] is still there in [s'] with the same content. *)
Definition extends (s s' : store) : Prop :=
  session s' = session s
  ∧ heap s ⊆ heap s'
  ∧ H5.objs (chkfile s) ⊆ H5.objs (chkfile s').

(** The keys of the entries that are not datasets. *)
Definition in_memory (m : gmap string value) : gmap string value :=
  filter (λ kv, is_Dataset kv.2 = false) m.

End Frame.

(** * Properties *)

Section BatchPlanner.
Import Batch.

Lemma range_len_pos lo hi step :
  0 < step → lo < hi → range_len lo hi step = (hi - lo - 1) / step + 1.
Proof.
  intros Hs Hl. unfold range_len.
  destruct (Z.ltb_spec 0 step); [|lia].
  destruct (Z.ltb_spec lo hi); [done|lia].
Qed.

Lemma range_len_empty lo hi step :
  0 < step → hi ≤ lo → range_len lo hi step = 0.
Proof.
  intros Hs Hl. unfold range_len.
  destruct (Z.ltb_spec 0 step); [|lia].
  destruct (Z.ltb_spec lo hi); [lia|done].
Qed.

Lemma range_len_step lo hi step :
  0 < step → lo < hi →
  range_len lo hi step = 1 + range_len (lo + step) hi step.
Proof.
  intros Hs Hl. rewrite range_len_pos by lia.
  destruct (Z.lt_ge_cases (lo + step) hi) as [Hlt|Hge].
  - rewrite range_len_pos by lia.
    replace (hi - lo - 1) with ((hi - (lo + step) - 1) + 1 * step) by lia.
    rewrite Z.div_add by lia. lia.
  - rewrite range_len_empty by lia.
    rewrite Z.div_small by lia. lia.
Qed.

Lemma range_len_nonneg lo hi step : 0 < step → 0 ≤ range_len lo hi step.
Proof.
  intros Hs. destruct (Z.lt_ge_cases lo hi).
  - rewrite range_len_pos by lia.
    assert (0 ≤ (hi - lo - 1) / step) by (apply Z.div_pos; lia). lia.
  - rewrite range_len_empty by lia. lia.
Qed.

Lemma batches_S lo hi step n :
  batches lo hi step (S n) =
  Slice lo (if lo + step <? hi then lo + step else hi)
    :: batches (lo + step) hi step n.
Proof.
  unfold batches. cbn [seq map]. f_equal.
  - f_equal; [lia|]. replace (lo + Z.of_nat 0 * step) with lo by lia. done.
  - rewrite <- seq_shift, !map_map. apply map_ext. intros i.
    replace (lo + Z.of_nat (S i) * step) with (lo + step + Z.of_nat i * step)
      by lia.
    done.
Qed.

Lemma gen_batch_unfold lo hi step :
  0 < step →
  gen_batch lo hi step = Ok (batches lo hi step (Z.to_nat (range_len lo hi step))).
Proof.
  intros Hs. unfold gen_batch, range.
  destruct (Z.eqb_spec step 0); [lia|]. done.
Qed.

Lemma batches_tiles step hi n : ∀ lo,
  0 < step → lo ≤ hi → Z.of_nat n = range_len lo hi step →
  tiles lo hi (batches lo hi step n).
Proof.
  induction n as [|n IH]; intros lo Hs Hl Hn.
  - cbn. destruct (Z.lt_ge_cases lo hi); [|lia].
    rewrite range_len_step in Hn by lia.
    pose proof (range_len_nonneg (lo + step) hi step Hs). lia.
  - destruct (Z.lt_ge_cases lo hi) as [Hlt|Hge].
    2:{ rewrite range_len_empty in Hn by lia. lia. }
    rewrite range_len_step in Hn by lia.
    rewrite batches_S. cbn [tiles start stop].
    destruct (Z.ltb_spec (lo + step) hi) as [Hin|Hout].
    + split; [done|]. split; [lia|]. apply IH; lia.
    + split; [done|]. split; [lia|].
      rewrite range_len_empty in Hn by lia.
      assert (n = 0%nat) as -> by lia. done.
Qed.

Lemma batches_chunked step hi n : ∀ lo,
  0 < step → lo ≤ hi → Z.of_nat n = range_len lo hi step →
  chunked step (batches lo hi step n).
Proof.
  induction n as [|n IH]; intros lo Hs Hl Hn; [done|].
  destruct (Z.lt_ge_cases lo hi) as [Hlt|Hge].
  2:{ rewrite range_len_empty in Hn by lia. lia. }
  rewrite range_len_step in Hn by lia.
  rewrite batches_S.
  destruct (Z.ltb_spec (lo + step) hi) as [Hin|Hout].
  - specialize (IH (lo + step) Hs ltac:(lia) ltac:(lia)).
    destruct n as [|n].
    { rewrite range_len_step in Hn by lia.
      pose proof (range_len_nonneg (lo + step + step) hi step Hs). lia. }
    rewrite batches_S in IH |- *. cbn [chunked start stop] in IH |- *.
    split; [lia|done].
  - rewrite range_len_empty in Hn by lia.
    assert (n = 0%nat) as -> by lia. cbn. lia.
Qed.

Lemma tiles_le a b l : tiles a b l → a ≤ b.
Proof.
  revert a. induction l as [|s l IH]; intros a; cbn; [lia|].
  intros (_ & Hlt & Ht). apply IH in Ht. lia.
Qed.

Lemma indices_app a c b :
  a ≤ c → c ≤ b →
  indices (Slice a c) ++ indices (Slice c b) = indices (Slice a b).
Proof.
  intros Hac Hcb. unfold indices. cbn [start stop].
  replace (Z.to_nat (b - a)) with (Z.to_nat (c - a) + Z.to_nat (b - c))%nat
    by lia.
  rewrite seq_app, map_app. f_equal.
  assert (∀ n k, map (λ i : nat, c + Z.of_nat i) (seq k n)
                 = map (λ i : nat, a + Z.of_nat i)
                       (seq (Z.to_nat (c - a) + k) n)) as Hshift.
  { induction n as [|n IH]; intros k; [done|].
    cbn [seq map]. f_equal; [lia|].
    rewrite IH. by rewrite Nat.add_succ_r. }
  rewrite Hshift. by rewrite Nat.add_0_r, Nat.add_0_l.
Qed.

Lemma tiles_indices a b l :
  tiles a b l → flat_map indices l = indices (Slice a b).
Proof.
  revert a. induction l as [|s l IH]; intros a; cbn [tiles flat_map].
  - intros ->. unfold indices. cbn [start stop]. by rewrite Z.sub_diag.
  - intros (Hs & Hlt & Ht). rewrite (IH _ Ht).
    destruct s as [s0 s1]. cbn [start stop] in *. subst s0.
    apply indices_app; [lia|]. by apply tiles_le in Ht.
Qed.

(** C2. For chunk >= 1 and start <= stop, [gen_batch] returns slices that
    tile [start, stop): the first one starts at [start], each next one
    starts where the previous one stops, none is empty, the last one stops
    at [stop], every slice but the last has length [chunk] and the last has
    at most [chunk]; their indices, concatenated, are exactly
    start, ..., stop - 1; and for start = stop the list is empty. *)
Theorem gen_batch_partition (start stop chunk : Z) :
  1 ≤ chunk → start ≤ stop →
  ∃ l, gen_batch start stop chunk = Ok l
       ∧ tiles start stop l
       ∧ chunked chunk l
       ∧ flat_map indices l = indices (Slice start stop)
       ∧ (start = stop → l = []).
Proof.
  intros Hc Hle. rewrite gen_batch_unfold by lia.
  pose proof (range_len_nonneg start stop chunk ltac:(lia)) as Hn.
  eexists. split; [done|].
  assert (tiles start stop
            (batches start stop chunk
               (Z.to_nat (range_len start stop chunk)))) as Ht
    by (apply batches_tiles; lia).
  split; [done|].
  split; [apply batches_chunked; lia|].
  split; [by apply tiles_indices|].
  intros ->. rewrite range_len_empty by lia. done.
Qed.

Lemma gen_batch_partition_witness :
  ∃ l, gen_batch 0 5 2 = Ok l
       ∧ tiles 0 5 l
       ∧ chunked 2 l
       ∧ flat_map indices l = indices (Slice 0 5)
       ∧ (0 = 5 → l = []).
Proof. apply (gen_batch_partition 0 5 2); lia. Defined.

Example gen_batch_0_4_2 : gen_batch 0 4 2 = Ok [Slice 0 2; Slice 2 4].
Proof. reflexivity. Qed.

Example gen_batch_0_5_2 :
  gen_batch 0 5 2 = Ok [Slice 0 2; Slice 2 4; Slice 4 5].
Proof. reflexivity. Qed.

End BatchPlanner.

(** Rounding to a double: bounds that powers of two give. *)
Section Float64Facts.
Import Float64.
Local Open Scope Q_scope.

Lemma two_neq_0 : ¬ 2 == 0.
Proof. discriminate. Qed.

Lemma pow2_pos k : 0 < 2 ^ k.
Proof. by apply Qpower_0_lt. Qed.

Lemma pow2_le a b : (a ≤ b)%Z → 2 ^ a <= 2 ^ b.
Proof. intros H. by apply Qpower_le_compat_l. Qed.

Lemma pow2_le_inv a b : 2 ^ a <= 2 ^ b → (a ≤ b)%Z.
Proof. intros H. by apply (Qpower_le_compat_l_inv 2). Qed.

Lemma pow2_lt_inv a b : 2 ^ a < 2 ^ b → (a < b)%Z.
Proof. intros H. by apply (Qpower_lt_compat_l_inv 2). Qed.

Lemma pow2_plus a b : 2 ^ (a + b) == 2 ^ a * 2 ^ b.
Proof. apply Qpower_plus, two_neq_0. Qed.

Lemma pow2_minus a b : 2 ^ (a - b) == 2 ^ a / 2 ^ b.
Proof. apply Qpower_minus, two_neq_0. Qed.

Lemma pow2_Z k : (0 ≤ k)%Z → 2 ^ k == inject_Z (2 ^ k).
Proof. intros H. by rewrite Zpower_Qpower. Qed.

Lemma ilog2_spec a : 0 < a → 2 ^ ilog2 a <= a ∧ a < 2 ^ (ilog2 a + 1).
Proof.
  intros Ha. destruct a as [n d].
  assert (0 < n)%Z as Hn by (unfold Qlt in Ha; cbn in Ha; lia).
  unfold ilog2. cbn [Qnum Qden].
  set (L := Z.log2 n). set (M := Z.log2 (Z.pos d)).
  destruct (Z.log2_spec n Hn) as [HL1 HL2]. fold L in HL1, HL2.
  destruct (Z.log2_spec (Z.pos d) ltac:(lia)) as [HM1 HM2].
  fold M in HM1, HM2.
  assert (0 ≤ L)%Z as HL0 by apply Z.log2_nonneg.
  assert (0 ≤ M)%Z as HM0 by apply Z.log2_nonneg.
  assert (n # d < 2 ^ (L - M + 1)) as Hup.
  { replace (L - M + 1)%Z with (Z.succ L - M)%Z by lia.
    rewrite pow2_minus, !pow2_Z by lia.
    apply Qlt_shift_div_l.
    - change 0 with (inject_Z 0). rewrite <- Zlt_Qlt. lia.
    - unfold Qlt, Qmult, inject_Z. cbn [Qnum Qden].
      rewrite Pos.mul_1_r. nia. }
  assert (2 ^ (L - M - 1) <= n # d) as Hlo.
  { replace (L - M - 1)%Z with (L - Z.succ M)%Z by lia.
    rewrite pow2_minus, !pow2_Z by lia.
    apply Qle_shift_div_r.
    - change 0 with (inject_Z 0). rewrite <- Zlt_Qlt. lia.
    - unfold Qle, Qmult, inject_Z. cbn [Qnum Qden].
      rewrite Pos.mul_1_r. nia. }
  destruct (Qle_bool (2 ^ (L - M)) (n # d)) eqn:E.
  - apply Qle_bool_iff in E. by split.
  - split; [done|].
    replace (L - M - 1 + 1)%Z with (L - M)%Z by lia.
    apply Qnot_le_lt. intros H. apply Qle_bool_iff in H. congruence.
Qed.

Lemma rne_le a N : a <= inject_Z N → (rne a ≤ N)%Z.
Proof.
  intros Ha. unfold rne.
  pose proof (Qfloor_le a) as Hf.
  assert (Qfloor a ≤ N)%Z as H1.
  { rewrite Zle_Qle. by eapply Qle_trans. }
  assert (1 # 2 <= a - inject_Z (Qfloor a) → (Qfloor a + 1 ≤ N)%Z) as H2.
  { intros Hr. cut (Qfloor a < N)%Z; [lia|].
    rewrite Zlt_Qlt. eapply Qlt_le_trans; [|exact Ha].
    revert Hr. generalize (inject_Z (Qfloor a)). intros f Hr. lra. }
  destruct (Qcompare_spec (a - inject_Z (Qfloor a)) (1 # 2)) as [E|E|E].
  - destruct (Z.even (Qfloor a)); [done|]. apply H2. rewrite E. lra.
  - done.
  - apply H2. lra.
Qed.

Lemma rne_ge a N : inject_Z N <= a → (N ≤ rne a)%Z.
Proof.
  intros Ha. unfold rne.
  assert (N ≤ Qfloor a)%Z as H1.
  { rewrite <- (Qfloor_Z N). by apply Qfloor_resp_le. }
  destruct (Qcompare (a - inject_Z (Qfloor a)) (1 # 2));
    [destruct (Z.even (Qfloor a))|..]; lia.
Qed.


Lemma pow2_scale K e : (e ≤ K)%Z → inject_Z (2 ^ (K - e)) * 2 ^ e == 2 ^ K.
Proof.
  intros H. rewrite <- pow2_Z by lia. rewrite <- pow2_plus.
  by replace (K - e + e)%Z with K by lia.
Qed.

Lemma pow2_quot K e a :
  (e ≤ K)%Z → a <= 2 ^ K → a / 2 ^ e <= inject_Z (2 ^ (K - e)).
Proof.
  intros H Ha. apply Qle_shift_div_r; [apply pow2_pos|].
  by rewrite pow2_scale.
Qed.

Lemma pow2_quot_ge K e a :
  (e ≤ K)%Z → 2 ^ K <= a → inject_Z (2 ^ (K - e)) <= a / 2 ^ e.
Proof.
  intros H Ha. apply Qle_shift_div_l; [apply pow2_pos|].
  by rewrite pow2_scale.
Qed.

Lemma nearest_nonneg a : 0 < a → 0 <= nearest a.
Proof.
  intros Ha. unfold nearest.
  apply Qmult_le_0_compat; [|apply Qlt_le_weak, pow2_pos].
  change 0 with (inject_Z 0). rewrite <- Zle_Qle. apply rne_ge.
  apply Qle_shift_div_l; [apply pow2_pos|].
  rewrite Qmult_0_l. by apply Qlt_le_weak.
Qed.

Lemma nearest_le a K :
  0 < a → (emin ≤ K)%Z → a <= 2 ^ K → nearest a <= 2 ^ K.
Proof.
  intros Ha HK HaK. unfold nearest.
  destruct (ilog2_spec a Ha) as [Hlo _].
  assert (ilog2 a ≤ K)%Z as Hj by (apply pow2_le_inv; by eapply Qle_trans).
  set (e := Z.max (ilog2 a - 52) emin).
  assert (e ≤ K)%Z as He by (unfold e; lia).
  rewrite <- (pow2_scale K e He).
  apply Qmult_le_compat_r; [|apply Qlt_le_weak, pow2_pos].
  rewrite <- Zle_Qle. by apply rne_le, pow2_quot.
Qed.

Lemma nearest_ge a K :
  0 < a → (emin ≤ K)%Z → 2 ^ K <= a → 2 ^ K <= nearest a.
Proof.
  intros Ha HK HaK. unfold nearest.
  destruct (ilog2_spec a Ha) as [Hlo Hup].
  assert (K ≤ ilog2 a)%Z as Hj.
  { cut (K < ilog2 a + 1)%Z; [lia|].
    apply pow2_lt_inv. by eapply Qle_lt_trans. }
  set (e := Z.max (ilog2 a - 52) emin).
  assert (e ≤ ilog2 a)%Z as He by (unfold e; lia).
  apply Qle_trans with (2 ^ ilog2 a); [by apply pow2_le|].
  rewrite <- (pow2_scale (ilog2 a) e He).
  apply Qmult_le_compat_r; [|apply Qlt_le_weak, pow2_pos].
  rewrite <- Zle_Qle. by apply rne_ge, pow2_quot_ge.
Qed.

Lemma Qltb_lt a b : Qltb a b = true ↔ a < b.
Proof.
  unfold Qltb. rewrite negb_true_iff. split.
  - intros H. apply Qnot_le_lt. intros Hle.
    apply Qle_bool_iff in Hle. congruence.
  - intros H. destruct (Qle_bool b a) eqn:E; [|done].
    apply Qle_bool_iff in E. by apply Qlt_not_le in H.
Qed.

Lemma Qltb_ge a b : Qltb a b = false ↔ b <= a.
Proof.
  unfold Qltb. rewrite negb_false_iff. apply Qle_bool_iff.
Qed.

(** Rounding a number of magnitude at most [2 ^ K], below the overflow
    threshold, gives a finite double of magnitude at most [2 ^ K], of the
    same sign. *)
Lemma round_bound q K :
  (emin ≤ K)%Z → (K < emax)%Z → Qabs q <= 2 ^ K →
  ∃ v, round q = Fin v ∧ Qabs v <= 2 ^ K
       ∧ (q <= 0 → v <= 0) ∧ (0 <= q → 0 <= v).
Proof.
  intros HK1 HK2 Hq. unfold round.
  destruct (Qeq_bool q 0) eqn:E0.
  { exists 0. split; [done|]. split; [apply Qlt_le_weak, pow2_pos|].
    split; intros _; apply Qle_refl. }
  assert (¬ q == 0) as Hne.
  { intros H. apply Qeq_bool_iff in H. congruence. }
  assert (0 < Qabs q) as Ha.
  { destruct (Qlt_le_dec q 0) as [Hlt|Hge].
    - rewrite Qabs_neg by (by apply Qlt_le_weak). lra.
    - rewrite Qabs_pos by done.
      destruct (Qlt_le_dec 0 q) as [|Hle]; [done|].
      exfalso. apply Hne. by apply Qle_antisym. }
  set (v := Qred (nearest (Qabs q))).
  assert (v == nearest (Qabs q)) as Hv by apply Qred_correct.
  assert (0 <= v) as Hv0 by (rewrite Hv; by apply nearest_nonneg).
  assert (v <= 2 ^ K) as HvK by (rewrite Hv; by apply nearest_le).
  assert (Qle_bool (2 ^ emax) v = false) as ->.
  { destruct (Qle_bool (2 ^ emax) v) eqn:E; [|done].
    apply Qle_bool_iff in E. exfalso.
    assert (2 ^ emax <= 2 ^ K) as H by (by eapply Qle_trans).
    apply pow2_le_inv in H. lia. }
  destruct (Qltb q 0) eqn:Es.
  - apply Qltb_lt in Es. exists (- v). split; [done|].
    split; [by rewrite Qabs_opp, Qabs_pos|].
    split; intros H; lra.
  - apply Qltb_ge in Es. exists v. split; [done|].
    split; [by rewrite Qabs_pos|].
    split; intros H; [|done]. exfalso. apply Hne. by apply Qle_antisym.
Qed.

(** Rounding does not go below a power of two that the number reaches. *)
Lemma round_lower q K :
  (emin ≤ K)%Z → 2 ^ K <= q → ∀ v, round q = Fin v → 2 ^ K <= v.
Proof.
  intros HK Hq v. unfold round.
  assert (0 < q) as Hpos by (eapply Qlt_le_trans; [apply (pow2_pos K)|done]).
  destruct (Qeq_bool q 0) eqn:E0.
  { apply Qeq_bool_iff in E0. rewrite E0 in Hpos. by apply Qlt_irrefl in Hpos. }
  assert (Qltb q 0 = false) as -> by (apply Qltb_ge; by apply Qlt_le_weak).
  destruct (Qle_bool _ _); [done|]. intros [= <-].
  rewrite Qred_correct. apply nearest_ge; rewrite ?Qabs_pos; try done.
  all: by apply Qlt_le_weak.
Qed.

End Float64Facts.

(** Floor division of doubles that stay in range. *)
Section FloorDivision.
Import Float64.
Local Open Scope Q_scope.

Lemma Qtrunc_nonneg c :
  0 <= c → 0 <= inject_Z (Qtrunc c) ∧ inject_Z (Qtrunc c) <= c.
Proof.
  destruct c as [n d]. unfold Qle, Qtrunc, inject_Z. cbn [Qnum Qden].
  intros Hn. rewrite !Z.mul_1_r in *. cbn in Hn.
  pose proof (Z.quot_pos n (Z.pos d) ltac:(lia) ltac:(lia)).
  pose proof (Z.mul_quot_le n (Z.pos d) ltac:(lia) ltac:(lia)).
  lia.
Qed.

Lemma Qtrunc_nonpos c :
  c <= 0 → inject_Z (Qtrunc c) <= 0 ∧ c <= inject_Z (Qtrunc c).
Proof.
  destruct c as [n d]. unfold Qle, Qtrunc, inject_Z. cbn [Qnum Qden].
  intros Hn. rewrite !Z.mul_1_r in *. cbn in Hn.
  pose proof (Z.quot_pos (- n) (Z.pos d) ltac:(lia) ltac:(lia)) as H1.
  rewrite Z.quot_opp_l in H1 by lia.
  pose proof (Z.mul_quot_ge n (Z.pos d) ltac:(lia) ltac:(lia)).
  lia.
Qed.

Lemma Qtrunc_ge_1 q : 1 <= q → (1 ≤ Qtrunc q)%Z.
Proof.
  destruct q as [n d]. unfold Qle, Qtrunc. cbn [Qnum Qden]. intros H.
  apply Z.quot_le_lower_bound; lia.
Qed.

(** [x - fmod(x, y)], a multiple of [y], lies between 0 and [x]. *)
Lemma fmod_multiple x y :
  0 < y →
  let r := x - y * inject_Z (Qtrunc (x / y)) in
  Qabs (x - r) <= Qabs x ∧ (x <= 0 → x - r <= 0).
Proof.
  intros Hy r.
  assert (y * (x / y) == x) as Hc.
  { apply Qmult_div_r. intros H. rewrite H in Hy. by apply Qlt_irrefl in Hy. }
  assert (x - r == y * inject_Z (Qtrunc (x / y))) as -> by (unfold r; ring).
  revert Hc. generalize (x / y). intros c Hc.
  destruct (Qlt_le_dec x 0) as [Hneg|Hpos].
  - assert (c <= 0) as Hc0.
    { destruct (Qlt_le_dec 0 c) as [Hlt|]; [|done]. exfalso.
      assert (0 < y * c) by (by apply Qmult_lt_0_compat). lra. }
    destruct (Qtrunc_nonpos c Hc0) as [H1 H2].
    revert H1 H2. generalize (inject_Z (Qtrunc c)). intros t H1 H2.
    assert (y * c <= y * t) as H3 by (apply Qmult_le_l; done).
    assert (y * t <= 0) as H4.
    { assert (0 <= y * - t) by (apply Qmult_le_0_compat; lra).
      assert (y * - t == - (y * t)) by ring. lra. }
    rewrite (Qabs_neg x) by lra. rewrite Qabs_neg by done.
    split; [lra|done].
  - assert (0 <= c) as Hc0.
    { destruct (Qlt_le_dec c 0) as [Hlt|]; [|done]. exfalso.
      assert (0 < y * - c) by (apply Qmult_lt_0_compat; lra).
      assert (y * - c == - x) by (rewrite <- Hc; ring). lra. }
    destruct (Qtrunc_nonneg c Hc0) as [H1 H2].
    revert H1 H2. generalize (inject_Z (Qtrunc c)). intros t H1 H2.
    assert (y * t <= y * c) as H3 by (apply Qmult_le_l; done).
    assert (0 <= y * t) as H4 by (apply Qmult_le_0_compat; lra).
    rewrite (Qabs_pos x) by done. rewrite Qabs_pos by done.
    split; [lra|]. intros Hx.
    assert (x == 0) as Hx0 by (by apply Qle_antisym). lra.
Qed.

Lemma Qabs_div_le s y A B :
  Qabs s <= 2 ^ A → 2 ^ B <= y → Qabs (s / y) <= 2 ^ (A - B).
Proof.
  intros Hs Hy.
  assert (0 < y) as Hy0 by (eapply Qlt_le_trans; [apply (pow2_pos B)|done]).
  unfold Qdiv. rewrite Qabs_Qmult.
  rewrite (Qabs_pos (/ y)) by (by apply Qinv_le_0_compat, Qlt_le_weak).
  apply Qle_shift_div_r; [done|].
  apply Qle_trans with (2 ^ A); [done|].
  assert (2 ^ A == 2 ^ (A - B) * 2 ^ B) as ->.
  { rewrite <- pow2_plus. by replace (A - B + B)%Z with A by lia. }
  apply Qmult_le_l; [apply pow2_pos|done].
Qed.

Lemma Qabs_plus_le a b K :
  Qabs a <= 2 ^ K → Qabs b <= 2 ^ K → Qabs (a + b) <= 2 ^ (K + 1).
Proof.
  intros Ha Hb. eapply Qle_trans; [apply Qabs_triangle|].
  rewrite pow2_plus. change (2 ^ 1) with 2. lra.
Qed.

Lemma Qabs_le_pow2 a K K' : Qabs a <= 2 ^ K → (K ≤ K')%Z → Qabs a <= 2 ^ K'.
Proof. intros Ha H. eapply Qle_trans; [done|by apply pow2_le]. Qed.

Lemma fadd_fin a b : fadd (Fin a) (Fin b) = round (a + b).
Proof. done. Qed.

Lemma fsub_fin a b : fsub (Fin a) (Fin b) = round (a + - b).
Proof. done. Qed.

Lemma fmul_fin a b : fmul (Fin a) (Fin b) = round (a * b).
Proof. done. Qed.

Lemma fdiv_fin a b : ¬ b == 0 → fdiv (Fin a) (Fin b) = round (a / b).
Proof.
  intros Hb. unfold fdiv. destruct (Qeq_bool b 0) eqn:E; [|done].
  by apply Qeq_bool_iff in E.
Qed.

Lemma is_zero_fin v : is_zero (Fin v) = false ↔ ¬ v == 0.
Proof.
  cbn. split.
  - intros E H. apply Qeq_bool_iff in H. congruence.
  - intros H. destruct (Qeq_bool v 0) eqn:E; [|done].
    by apply Qeq_bool_iff in E.
Qed.

(** Floor division of a float of magnitude at most [2 ^ 501] by a float
    that is at least [2 ^ -517]: no exception, a finite result, and a
    result that is not positive when the dividend is not. *)
Lemma float_floor_div_finite x y :
  Qabs x <= 2 ^ 501 → 2 ^ (-517) <= y →
  ∃ q, float_floor_div (Fin x) (Fin y) = Ok (Fin q) ∧ (x <= 0 → q <= 0).
Proof.
  intros Hx Hy.
  assert (0 < y) as Hy0
    by (eapply Qlt_le_trans; [apply (pow2_pos (-517))|done]).
  assert (¬ y == 0) as Hyne.
  { intros H. rewrite H in Hy0. by apply Qlt_irrefl in Hy0. }
  unfold float_floor_div.
  rewrite (proj2 (is_zero_fin y) Hyne).
  assert (fmod (Fin x) (Fin y)
          = Fin (Qred (x - y * inject_Z (Qtrunc (x / y))))) as ->.
  { unfold fmod. destruct (Qeq_bool y 0) eqn:E; [|done].
    by apply Qeq_bool_iff in E. }
  set (r := Qred (x - y * inject_Z (Qtrunc (x / y)))).
  destruct (fmod_multiple x y Hy0) as [Hm1 Hm2]. cbn zeta in Hm1, Hm2.
  assert (r == x - y * inject_Z (Qtrunc (x / y))) as Hr by apply Qred_correct.
  rewrite <- Hr in Hm1, Hm2.
  rewrite fsub_fin.
  assert (Qabs (x + - r) <= 2 ^ 501) as Hm3 by (by eapply Qle_trans).
  destruct (round_bound (x + - r) 501 ltac:(done) ltac:(done) Hm3)
    as (s & -> & Hs & Hsneg & _).
  rewrite fdiv_fin by done.
  destruct (round_bound (s / y) 1018 ltac:(done) ltac:(done)
              (Qabs_div_le s y 501 (-517) Hs Hy))
    as (d0 & -> & Hd0 & Hd0neg & _).
  assert (x <= 0 → d0 <= 0) as Hd0x.
  { intros H. apply Hd0neg. apply Qle_shift_div_r; [done|].
    rewrite Qmult_0_l. by apply Hsneg, Hm2. }
  assert (∃ d1, (if negb (is_zero (Fin r))
                    && negb (Bool.eqb (flt (Fin y) (Fin 0)) (flt (Fin r) (Fin 0)))
                 then fsub (Fin d0) (Fin 1) else Fin d0) = Fin d1
                ∧ Qabs d1 <= 2 ^ 1019 ∧ (x <= 0 → d1 <= 0))
    as (d1 & -> & Hd1 & Hd1x).
  { destruct (_ && _).
    - rewrite fsub_fin.
      destruct (round_bound (d0 + - (1)) 1019 ltac:(done) ltac:(done))
        as (d1 & -> & Hd1 & Hd1neg & _).
      { apply (Qabs_plus_le d0 (- (1)) 1018); [done|].
        apply Qle_trans with (2 ^ 0); [done|by apply pow2_le]. }
      exists d1. split; [done|]. split; [done|].
      intros H. apply Hd1neg. specialize (Hd0x H). lra.
    - exists d0. split; [done|]. split; [|done].
      by apply (Qabs_le_pow2 d0 1018). }
  destruct (negb (is_zero (Fin d1))) eqn:Ez.
  2:{ exists 0. split; [done|]. intros _. apply Qle_refl. }
  apply negb_true_iff, is_zero_fin in Ez.
  cbn [floor]. set (fl := inject_Z (Qfloor d1)).
  assert (fl <= d1) as Hfl1 by apply Qfloor_le.
  assert (d1 < fl + 1) as Hfl2.
  { unfold fl. change 1 with (inject_Z 1). rewrite <- inject_Z_plus.
    apply Qlt_floor. }
  rewrite fsub_fin.
  destruct (round_bound (d1 + - fl) 0 ltac:(done) ltac:(done))
    as (g & -> & _).
  { change (2 ^ 0) with 1. rewrite Qabs_pos by lra. lra. }
  assert (Qabs fl <= 2 ^ 1020) as Hflb.
  { apply Qabs_Qle_condition.
    assert (Qabs d1 <= 2 ^ 1019) as H by done.
    apply Qabs_Qle_condition in H.
    assert (2 ^ 1020 == 2 ^ 1019 + 2 ^ 1019) as ->.
    { change 1020%Z with (1019 + 1)%Z. rewrite pow2_plus.
      change (2 ^ 1) with 2. ring. }
    assert (1 <= 2 ^ 1019) by (apply Qle_trans with (2 ^ 0); [done|by apply pow2_le]).
    split; lra. }
  assert (x <= 0 → fl + 1 <= 0) as Hflx.
  { intros H. specialize (Hd1x H).
    assert (d1 < 0) as Hlt.
    { destruct (Qlt_le_dec d1 0) as [|Hge]; [done|].
      exfalso. apply Ez. by apply Qle_antisym. }
    assert (Qfloor d1 < 0)%Z as Hf.
    { rewrite Zlt_Qlt. by eapply Qle_lt_trans. }
    unfold fl. change 1 with (inject_Z 1). rewrite <- inject_Z_plus.
    change 0 with (inject_Z 0). rewrite <- Zle_Qle. lia. }
  destruct (flt (Fin (1 # 2)) (Fin g)).
  - rewrite fadd_fin.
    destruct (round_bound (fl + 1) 1021 ltac:(done) ltac:(done))
      as (q & -> & _ & Hqneg & _).
    { apply (Qabs_plus_le fl 1 1020); [done|].
      apply Qle_trans with (2 ^ 0); [done|by apply pow2_le]. }
    exists q. split; [done|]. intros H. by apply Hqneg, Hflx.
  - exists fl. split; [done|]. intros H. specialize (Hflx H). lra.
Qed.

End FloorDivision.

Section ChunkSize.
Import Float64 Num Chunk.
Local Open Scope Q_scope.

Lemma round_08 : ∃ c, round (8 # 10) = Fin c ∧ Qabs c <= 1.
Proof.
  eexists. split; [vm_compute; reflexivity|]. vm_compute. discriminate.
Qed.

Lemma of_int_8 : of_int 8 = Ok (Fin 8).
Proof. vm_compute. reflexivity. Qed.

Lemma of_int_MB : of_int (1024 ^ 2) = Ok (Fin 1048576).
Proof. vm_compute. reflexivity. Qed.

Lemma of_int_bound z K :
  (0 ≤ K < emax)%Z → Qabs (inject_Z z) <= 2 ^ K →
  ∃ v, of_int z = Ok (Fin v) ∧ Qabs v <= 2 ^ K
       ∧ ∀ J, (emin ≤ J)%Z → 2 ^ J <= inject_Z z → 2 ^ J <= v.
Proof.
  intros HK Hz. unfold of_int.
  destruct (round_bound (inject_Z z) K ltac:(unfold emin; lia) ltac:(lia) Hz)
    as (v & Hv & Hb & _).
  pose proof (λ J HJ Hl, round_lower (inject_Z z) J HJ Hl v Hv) as Hlow.
  rewrite Hv. eauto.
Qed.

Lemma moderate_value x :
  moderate x = true → ∃ v, value x = Some v ∧ Qabs v <= 2 ^ 500.
Proof.
  unfold moderate. destruct (value x) as [v|]; [|done].
  intros H. apply Qle_bool_iff in H. eauto.
Qed.

Lemma moderate_pos_value x :
  moderate_pos x = true →
  ∃ v, value x = Some v ∧ 2 ^ (-500) <= v ∧ v <= 2 ^ 500.
Proof.
  unfold moderate_pos. destruct (value x) as [v|]; [|done].
  intros [H1 H2]%andb_true_iff. apply Qle_bool_iff in H1, H2. eauto.
Qed.

Lemma megabytes_eq v : v * 8 / 1048576 == v * (1 # 131072).
Proof. field. Qed.

(** [x * 8 / 1024 ** 2] for a finite [x] of magnitude at most [2 ^ 500]:
    a finite float, of magnitude at most [2 ^ 500], and at least
    [2 ^ -517] when [x] is at least [2 ^ -500]. *)
Lemma megabytes_finite x v :
  value x = Some v → Qabs v <= 2 ^ 500 →
  ∃ b, (n ← mul x (PyInt 8); truediv n (PyInt (1024 ^ 2)))
       = Ok (PyFloat (Fin b))
       ∧ Qabs b <= 2 ^ 500
       ∧ (2 ^ (-500) <= v → 2 ^ (-517) <= b).
Proof.
  intros Hval Hv.
  assert (2 ^ (-500) <= v → 2 ^ (-517) <= v * 8 / 1048576) as Hlow.
  { intros H. apply Qle_shift_div_l; [done|].
    apply Qle_trans with (2 ^ (-500) * 8).
    - assert (2 ^ (-517) * 1048576 == 2 ^ (-500) * 8) as ->; [|apply Qle_refl].
      change 1048576 with (2 ^ 20). change 8 with (2 ^ 3).
      rewrite <- !pow2_plus. done.
    - apply Qmult_le_compat_r; [done|discriminate]. }
  assert (Qabs (v * 8 / 1048576) <= 2 ^ 500) as Hup.
  { apply Qle_trans with (Qabs v); [|done].
    rewrite megabytes_eq. apply Qabs_Qle_condition.
    assert (Qabs v <= Qabs v) as H by apply Qle_refl.
    apply Qabs_Qle_condition in H.
    pose proof (Qabs_nonneg v). split; lra. }
  destruct x as [z|[| |w]]; try done; injection Hval as <-.
  - cbn [mul mbind result_bind truediv].
    change (1024 ^ 2 =? 0)%Z with false. cbn match.
    assert (inject_Z (z * 8) / inject_Z (1024 ^ 2) == inject_Z z * 8 / 1048576)
      as Heq by (by rewrite inject_Z_mult).
    rewrite <- Heq in Hup, Hlow.
    destruct (round_bound _ 500 ltac:(done) ltac:(done) Hup)
      as (b & Hb & Hbb & _).
    rewrite Hb. exists b. split; [done|]. split; [done|].
    intros H. by eapply (round_lower _ (-517)); [|apply (Hlow H)|exact Hb].
  - cbn [mul to_float mbind result_bind]. rewrite of_int_8.
    cbn [mbind result_bind]. rewrite fmul_fin.
    destruct (round_bound (w * 8) 503 ltac:(done) ltac:(done))
      as (n & Hn & Hnb & _).
    { rewrite Qabs_Qmult. change (Qabs 8) with (2 ^ 3).
      change 503%Z with (500 + 3)%Z. rewrite pow2_plus.
      apply Qmult_le_compat_r; [done|discriminate]. }
    pose proof (λ J HJ Hl, round_lower (w * 8) J HJ Hl n Hn) as Hnl.
    rewrite Hn. cbn [truediv to_float mbind result_bind].
    rewrite of_int_MB. cbn [mbind result_bind].
    change (is_zero (Fin 1048576)) with false. cbn match.
    rewrite fdiv_fin by discriminate.
    destruct (round_bound (n / 1048576) 500 ltac:(done) ltac:(done))
      as (b & Hb & Hbb & _).
    { apply (Qabs_le_pow2 _ (503 - 20)); [|done].
      apply Qabs_div_le; [done|]. change (2 ^ 20) with 1048576.
      apply Qle_refl. }
    rewrite Hb. exists b. split; [done|]. split; [done|].
    intros H. eapply (round_lower (n / 1048576) (-517)); [done| |exact Hb].
    apply Qle_shift_div_l; [done|].
    apply Qle_trans with (2 ^ (-497)).
    { change 1048576 with (2 ^ 20). rewrite <- pow2_plus. apply Qle_refl. }
    apply Hnl; [done|].
    change (-497)%Z with (-500 + 3)%Z. rewrite pow2_plus. change (2 ^ 3) with 8.
    apply Qmult_le_compat_r; [done|discriminate].
Qed.

Lemma to_float_finite x v :
  value x = Some v → Qabs v <= 2 ^ 500 →
  ∃ w, to_float x = Ok (Fin w) ∧ Qabs w <= 2 ^ 500.
Proof.
  intros Hval Hv. destruct x as [z|[| |w]]; try done; injection Hval as <-.
  - destruct (of_int_bound z 500 ltac:(done) Hv) as (w & Hw & Hwb & _).
    eauto.
  - eauto.
Qed.

Lemma unit_memory_finite unit_flop :
  moderate_pos unit_flop = true →
  ∃ y, unit_memory unit_flop = Ok (PyFloat (Fin y)) ∧ 2 ^ (-517) <= y.
Proof.
  intros (v & Hval & Hlo & Hhi)%moderate_pos_value.
  assert (Qabs v <= 2 ^ 500) as Hv.
  { rewrite Qabs_pos; [done|].
    apply Qle_trans with (2 ^ (-500)); [|done]. apply Qlt_le_weak, pow2_pos. }
  destruct (megabytes_finite unit_flop v Hval Hv) as (y & Hy & _ & Hyl).
  exists y. split; [done|]. by apply Hyl.
Qed.

Lemma max_memory_finite mem_avail pre_flop :
  moderate mem_avail = true → moderate pre_flop = true →
  ∃ x, max_memory mem_avail pre_flop = Ok (PyFloat (Fin x))
       ∧ Qabs x <= 2 ^ 501.
Proof.
  intros (mv & Hm & Hmb)%moderate_value (pv & Hp & Hpb)%moderate_value.
  destruct (to_float_finite mem_avail mv Hm Hmb) as (w & Hw & Hwb).
  destruct (megabytes_finite pre_flop pv Hp Hpb) as (b & Hb & Hbb & _).
  destruct round_08 as (c & Hc & Hcb).
  unfold max_memory.
  assert (mul (PyFloat (round (8 # 10))) mem_avail
          = Ok (PyFloat (round (c * w)))) as ->.
  { unfold mul. cbn [to_float mbind result_bind]. rewrite Hw, Hc.
    cbn [mbind result_bind]. by rewrite fmul_fin. }
  cbn [mbind result_bind].
  destruct (round_bound (c * w) 500 ltac:(done) ltac:(done))
    as (a & -> & Hab & _).
  { rewrite Qabs_Qmult. apply Qle_trans with (1 * Qabs w).
    - apply Qmult_le_compat_r; [done|apply Qabs_nonneg].
    - by rewrite Qmult_1_l. }
  rewrite Hb. cbn [mbind result_bind sub to_float]. rewrite fsub_fin.
  destruct (round_bound (a + - b) 501 ltac:(done) ltac:(done))
    as (x & -> & Hxb & _).
  { apply (Qabs_plus_le a (- b) 500); [done|by rewrite Qabs_opp]. }
  eauto.
Qed.

(** [int(max(q, 1))], when it returns, returns at least 1. *)
Lemma int_max_ge q n : int (max q (PyInt 1)) = Ok n → (1 ≤ n)%Z.
Proof.
  unfold max. destruct q as [z|[|s|v]]; cbn [gt flt].
  - destruct (z <? 1)%Z eqn:E; cbn [int]; intros [= <-]; lia.
  - done.
  - destruct s; cbn [negb int]; [by intros [= <-]|done].
  - destruct (Qltb v (inject_Z 1)) eqn:E; cbn [int]; intros [= <-]; [done|].
    apply Qtrunc_ge_1. by apply Qltb_ge in E.
Qed.

Lemma int_max_finite q :
  ∃ n, int (max (PyFloat (Fin q)) (PyInt 1)) = Ok n
       ∧ (1 ≤ n)%Z ∧ (q <= 0 → n = 1%Z).
Proof.
  unfold max. cbn [gt flt].
  destruct (Qltb q (inject_Z 1)) eqn:E; cbn [int].
  - exists 1%Z. done.
  - apply Qltb_ge in E. exists (Qtrunc q). split; [done|].
    split; [by apply Qtrunc_ge_1|]. intros H. exfalso.
    change (inject_Z 1) with 1 in E. lra.
Qed.

Lemma calc_batch_size_result unit_flop mem_avail pre_flop n :
  calc_batch_size unit_flop mem_avail pre_flop = Ok n → (1 ≤ n)%Z.
Proof.
  unfold calc_batch_size.
  destruct (max_memory mem_avail pre_flop) as [mm|]; [|done].
  destruct (unit_memory unit_flop) as [u|]; [|done].
  cbn [mbind result_bind].
  destruct (floordiv mm u) as [q|]; [|done].
  cbn [mbind result_bind]. apply int_max_ge.
Qed.

Lemma calc_batch_size_returns unit_flop mem_avail pre_flop :
  moderate_pos unit_flop = true → moderate mem_avail = true →
  moderate pre_flop = true →
  ∃ n x, calc_batch_size unit_flop mem_avail pre_flop = Ok n
         ∧ (1 ≤ n)%Z
         ∧ max_memory mem_avail pre_flop = Ok (PyFloat (Fin x))
         ∧ (x <= 0 → n = 1%Z).
Proof.
  intros Hu Hm Hp.
  destruct (max_memory_finite mem_avail pre_flop Hm Hp) as (x & Hx & Hxb).
  destruct (unit_memory_finite unit_flop Hu) as (y & Hy & Hyl).
  destruct (float_floor_div_finite x y Hxb Hyl) as (q & Hq & Hqx).
  destruct (int_max_finite q) as (n & Hn & Hn1 & Hnq).
  exists n, x. unfold calc_batch_size. rewrite Hx, Hy.
  cbn [mbind result_bind floordiv to_float]. rewrite Hq.
  cbn [mbind result_bind]. split; [done|]. split; [done|]. split; [done|].
  intros H. by apply Hnq, Hqx.
Qed.








(** C7, as the code has it. A chunk size that [calc_batch_size] returns
    is at least 1, whatever the arguments.  For a unit cost between
    2^-500 and 2^500 and a budget and a baseline cost of magnitude at
    most 2^500 (ints or finite floats) it does return: an integer at
    least 1, and 1 when [max_memory], as computed in double arithmetic,
    is zero or negative. *)
Theorem calc_batch_size_ge_1 (unit_flop mem_avail pre_flop : number) :
  (∀ n, calc_batch_size unit_flop mem_avail pre_flop = Ok n → (1 ≤ n)%Z)
  ∧ (moderate_pos unit_flop = true → moderate mem_avail = true →
     moderate pre_flop = true →
     ∃ n x, calc_batch_size unit_flop mem_avail pre_flop = Ok n
            ∧ (1 ≤ n)%Z
            ∧ max_memory mem_avail pre_flop = Ok (PyFloat (Fin x))
            ∧ (x <= 0 → n = 1%Z)).
Proof.
  split.
  - intros n. apply calc_batch_size_result.
  - apply calc_batch_size_returns.
Qed.

Lemma calc_batch_size_ge_1_witness :
  (∀ n, calc_batch_size (PyInt 8) (PyFloat (Fin (-100))) (PyInt 4) = Ok n
        → (1 ≤ n)%Z)
  ∧ ∃ n x, calc_batch_size (PyInt 8) (PyFloat (Fin (-100))) (PyInt 4) = Ok n
           ∧ (1 ≤ n)%Z
           ∧ max_memory (PyFloat (Fin (-100))) (PyInt 4) = Ok (PyFloat (Fin x))
           ∧ (x <= 0 → n = 1%Z).
Proof.
  destruct (calc_batch_size_ge_1 (PyInt 8) (PyFloat (Fin (-100))) (PyInt 4))
    as [H1 H2].
  split; [exact H1|]. apply H2; reflexivity.
Defined.

(** C7 fails for a positive unit cost so small that
    [unit_flop * 8 / 1024 ** 2] underflows to 0.0 (the smallest positive
    double, 2^-1074, written 5e-324), for a budget so large that the
    quotient overflows (1e308 with unit cost 1), and for a budget that is
    NaN: the call raises and returns no chunk size. *)
Lemma calc_batch_size_ge_1_counterexample :
  0 < 2 ^ (-1074)
  ∧ is_double (Fin (2 ^ (-1074))) = true
  ∧ calc_batch_size (PyFloat (Fin (2 ^ (-1074)))) (PyFloat (Fin 1000)) (PyInt 0)
    = Raise ZeroDivisionError
  ∧ calc_batch_size (PyInt 1) (PyFloat (round (inject_Z (10 ^ 308)))) (PyInt 0)
    = Raise OverflowError
  ∧ calc_batch_size (PyInt 1) (PyFloat Nan) (PyInt 0) = Raise ValueError.
Proof.
  split; [reflexivity|]. split; [vm_compute; reflexivity|].
  split; [vm_compute; reflexivity|].
  split; vm_compute; reflexivity.
Qed.

(** Rounding shows in the result: with unit cost 104857.6 and budget 5
    both [max_memory] and the divisor are doubles next to 4 and 0.8, and
    the chunk size is 4, where exact arithmetic gives 5. *)
Example calc_batch_size_rounding :
  calc_batch_size (PyFloat (round (1048576 # 10))) (PyInt 5) (PyInt 0) = Ok 4%Z.
Proof. vm_compute. reflexivity. Qed.

Example calc_batch_size_example :
  calc_batch_size (PyInt 1024) (PyInt 1000) (PyInt 0) = Ok 102400%Z.
Proof. vm_compute. reflexivity. Qed.




End ChunkSize.

Section StoreBasics.
Import H5 HybridDict.

Lemma get_lookup key v s : dict s !! key = Some v → get key s = v.
Proof. unfold get. by intros ->. Qed.

Lemma setdefault_present key x v s :
  dict s !! key = Some v → setdefault key x s = s.
Proof. unfold setdefault. by intros ->. Qed.

Lemma setdefault_absent key x s :
  dict s !! key = None →
  setdefault key x s = set_dict (<[key := x]> (dict s)) s.
Proof. unfold setdefault. by intros ->. Qed.

Lemma setdefault_get key x s :
  dict (setdefault key x s) !! key = Some (get key (setdefault key x s)).
Proof.
  unfold setdefault, get. destruct (dict s !! key) as [v|] eqn:E.
  - by rewrite E.
  - cbn. by rewrite lookup_insert_eq.
Qed.

(** What an in-place write changes: the content of the array written to,
    and nothing else; in particular it allocates nothing. *)
Lemma write_inv v b' s s' :
  write v b' s = Ok s' →
  ∃ a, deref v s = Ok a
    ∧ deref v s' = Ok (NdArray (shape a) b')
    ∧ dict s' = dict s
    ∧ session s' = session s
    ∧ dom (heap s') = dom (heap s)
    ∧ dom (objs (chkfile s')) = dom (objs (chkfile s))
    ∧ links (chkfile s') = links (chkfile s).
Proof.
  unfold write. destruct (deref v s) as [a|e] eqn:Hd; [|done]. cbn.
  intros Hw. exists a. split; [done|].
  destruct v as [l|ss d|o]; [| |done]; injection Hw as <-; cbn in *.
  - rewrite lookup_insert_eq.
    destruct (heap s !! l) eqn:E; [|done].
    repeat (split; [done|]). split; [|done]. by apply dom_insert_lookup_L.
  - case_decide; [|done]. rewrite lookup_insert_eq.
    destruct (objs (chkfile s) !! d) eqn:E; [|done].
    repeat (split; [done|]). split; [|done]. by apply dom_insert_lookup_L.
Qed.

Lemma write_live v a b' s : deref v s = Ok a → ∃ s', write v b' s = Ok s'.
Proof.
  intros Hd. unfold write. rewrite Hd. cbn.
  destruct v as [l|ss d|o]; [by eauto|by eauto|done].
Qed.

Lemma deref_asarray v a s : deref v s = Ok a → asarray v s = Ok (Dense a).
Proof. destruct v as [l|ss d|o]; [|  |done]; cbn; by intros ->. Qed.

Lemma zero_fill_inv v s s' :
  zero_fill v s = Ok s' →
  ∃ a, deref v s = Ok a ∧ shape a ≠ []
       ∧ write v (buf (fill_zero a)) s = Ok s'.
Proof.
  unfold zero_fill. destruct (deref v s) as [a|e] eqn:E; [|done]. cbn.
  destruct (shape a) eqn:Hsh; [done|]. intros Hw.
  exists a. rewrite Hsh. done.
Qed.

Lemma zero_fill_dict v s s' : zero_fill v s = Ok s' → dict s' = dict s.
Proof.
  intros (a & _ & _ & Hw)%zero_fill_inv.
  by destruct (write_inv _ _ _ _ Hw) as (_ & _ & _ & ? & _).
Qed.

(** Every successful [create] ends in [return self.get(name)], with the
    name present. *)
Lemma create_returns_entry name data incore shape s v s' :
  create name data incore shape s = Ok (v, s') → dict s' !! name = Some v.
Proof.
  unfold create.
  assert (∀ s0, (s1 ← allocate name data incore shape s0;
                 Ok (get name s1, s1)) = Ok (v, s') →
                dict s' !! name = Some v) as Halloc.
  { intros s0. unfold allocate.
    destruct incore; cbn [negb].
    - destruct (is_None data); cbn [negb].
      + destruct shape as [sh|]; [|done].
        destruct (zeros sh) as [a|]; [|done]. cbn.
        intros [= <- <-]. apply setdefault_get.
      + cbn. intros [= <- <-]. apply setdefault_get.
    - destruct (dataset_data data s0) as [a|]; [|done]. cbn.
      destruct (create_dataset name shape a (chkfile s0)) as [f|]; [|done].
      cbn. destruct (links f !! name); [|done]. cbn.
      intros [= <- <-]. apply setdefault_get. }
  destruct (dict s !! name) as [v0|] eqn:Hv0; [|apply Halloc].
  unfold try_except.
  destruct (get_shape v0 s) as [sh|e]; cbn.
  - case_decide.
    + destruct (zero_fill v0 s) as [s1|e] eqn:Hz; cbn.
      * intros [= <- <-]. apply zero_fill_dict in Hz.
        rewrite Hz, Hv0. f_equal. symmetry. apply get_lookup. congruence.
      * destruct e; cbn; try done;
          (destruct (delete name s); [apply Halloc|done]).
    + apply Halloc.
  - destruct e; cbn; try done;
      (destruct (delete name s); [apply Halloc|done]).
Qed.

End StoreBasics.

Section StoreAccess.
Import H5 HybridDict.

(** C5, on the code. For a key that is not in the store, [delete] raises
    [KeyError], but [load] raises nothing: [self.get] answers [None] and
    [load] returns the 0-d object array numpy makes of it. *)
Theorem load_missing_key_returns_none (key : string) (s : store) :
  dict s !! key = None →
  load key s = Ok (Boxed PyNone) ∧ delete key s = Raise KeyError.
Proof.
  intros Hk. unfold load, get, delete. rewrite Hk. done.
Qed.

Lemma load_missing_key_returns_none_witness :
  load "U_1" (init ∅ H5.empty) = Ok (Boxed PyNone)
  ∧ delete "U_1" (init ∅ H5.empty) = Raise KeyError.
Proof. apply (load_missing_key_returns_none "U_1"). reflexivity. Defined.

(** A present key is loaded without error when its value is a live
    reference. *)
Lemma load_present key v a s :
  dict s !! key = Some v → deref v s = Ok a → load key s = Ok (Dense a).
Proof.
  intros Hk Hd. unfold load. rewrite (get_lookup _ _ _ Hk).
  by apply deref_asarray.
Qed.

(** C10. The value a successful [create] returns is the very entry the
    store holds under the name after the call; so an in-place write
    through the returned reference is what [load] and [get] of that name
    see afterwards. *)
Theorem create_returns_stored_object (name : string) (data : value)
    (incore : bool) (shape : option (list Z)) (s s' : store) (v : value) :
  create name data incore shape s = Ok (v, s') →
  dict s' !! name = Some v
  ∧ get name s' = v
  ∧ ∀ b' s'', write v b' s' = Ok s'' →
      get name s'' = v
      ∧ ∃ a, deref v s' = Ok a
          ∧ load name s'' = Ok (Dense (NdArray (Np.shape a) b')).
Proof.
  intros Hc. pose proof (create_returns_entry _ _ _ _ _ _ _ Hc) as Hv.
  split; [done|]. split; [by apply get_lookup|].
  intros b' s'' Hw.
  destruct (write_inv _ _ _ _ Hw) as (a & Hd & Hd' & Hdict & _).
  assert (dict s'' !! name = Some v) as Hv' by (by rewrite Hdict).
  split; [by apply get_lookup|].
  exists a. split; [done|]. by eapply load_present.
Qed.

Lemma create_returns_stored_object_witness :
  let s := init ∅ H5.empty in
  let s' := Store {["pdA_G_ia" := Arr 1]} {[1%positive := NdArray [2] [0; 0]%Q]}
                  H5.empty 0 in
  dict s' !! "pdA_G_ia" = Some (Arr 1)
  ∧ get "pdA_G_ia" s' = Arr 1
  ∧ ∀ b' s'', write (Arr 1) b' s' = Ok s'' →
      get "pdA_G_ia" s'' = Arr 1
      ∧ ∃ a, deref (Arr 1) s' = Ok a
          ∧ load "pdA_G_ia" s'' = Ok (Dense (NdArray (shape a) b')).
Proof.
  intros s s'.
  apply (create_returns_stored_object "pdA_G_ia" (Obj PyNone) true (Some [2]) s).
  vm_compute. reflexivity.
Defined.

Lemma delete_present_dataset key ss d s :
  dict s !! key = Some (Dset ss d) →
  delete key s
  = Ok (Store (base.delete key (dict s)) (heap s)
              (File (base.delete key (links (chkfile s))) (objs (chkfile s)))
              (session s)).
Proof.
  intros Hk. unfold delete. rewrite Hk. cbn [is_Dataset].
  unfold unlink, set_chkfile, set_dict. cbn.
  destruct (links (chkfile s) !! key) as [d'|] eqn:Hl; cbn; [done|].
  do 2 f_equal. destruct (chkfile s) as [lk ob]. cbn in *. f_equal.
  symmetry. by apply delete_id.
Qed.

(** C8. When two distinct keys hold a live handle on the same dataset,
    deleting one of them succeeds and leaves the other present and
    loadable with the same content; deleting the other one afterwards
    succeeds too, whether or not the dataset is still linked, and leaves
    the remaining entries, the heap and the dataset storage untouched. *)
Theorem delete_alias_safe (k1 k2 : string) (d : loc) (a : ndarray)
    (s : store) :
  k1 ≠ k2 →
  dict s !! k1 = Some (Dset (session s) d) →
  dict s !! k2 = Some (Dset (session s) d) →
  objs (chkfile s) !! d = Some a →
  ∃ s1, delete k1 s = Ok s1
    ∧ dict s1 = base.delete k1 (dict s)
    ∧ dict s1 !! k2 = Some (Dset (session s) d)
    ∧ load k2 s1 = load k2 s
    ∧ load k2 s1 = Ok (Dense a)
    ∧ ∃ s2, delete k2 s1 = Ok s2
        ∧ dict s2 = base.delete k2 (base.delete k1 (dict s))
        ∧ heap s2 = heap s
        ∧ objs (chkfile s2) = objs (chkfile s)
        ∧ session s2 = session s
        ∧ ∀ k, k ≠ k1 → k ≠ k2 → load k s2 = load k s.
Proof.
  intros Hne H1 H2 Ha.
  rewrite (delete_present_dataset _ _ _ _ H1).
  eexists. split; [done|]. cbn [dict].
  assert (base.delete k1 (dict s) !! k2 = Some (Dset (session s) d)) as H2'
    by (by rewrite lookup_delete_ne).
  split; [done|]. split; [done|].
  assert (load k2 s = Ok (Dense a)) as Hl.
  { eapply load_present; [done|]. cbn. rewrite decide_True by done.
    by rewrite Ha. }
  split.
  { rewrite Hl. eapply load_present; [done|]. cbn.
    rewrite decide_True by done. by rewrite Ha. }
  split.
  { eapply load_present; [done|]. cbn. rewrite decide_True by done.
    by rewrite Ha. }
  erewrite delete_present_dataset by done. cbn.
  eexists. split; [done|]. cbn.
  repeat (split; [done|]).
  intros k Hk1 Hk2. unfold load, get. cbn.
  rewrite !lookup_delete_ne by done.
  destruct (dict s !! k) as [[l|ss d'|o]|]; done.
Qed.

Lemma delete_alias_safe_witness :
  let s := Store {["a" := Dset 0 1; "b" := Dset 0 1]} ∅
             (File {["a" := 1%positive]} {[1%positive := NdArray [2] [1; 2]%Q]})
             0 in
  ∃ s1, delete "a" s = Ok s1
    ∧ dict s1 = base.delete "a" (dict s)
    ∧ dict s1 !! "b" = Some (Dset (session s) 1)
    ∧ load "b" s1 = load "b" s
    ∧ load "b" s1 = Ok (Dense (NdArray [2] [1; 2]%Q))
    ∧ ∃ s2, delete "b" s1 = Ok s2
        ∧ dict s2 = base.delete "b" (base.delete "a" (dict s))
        ∧ heap s2 = heap s
        ∧ objs (chkfile s2) = objs (chkfile s)
        ∧ session s2 = session s
        ∧ ∀ k, k ≠ "a" → k ≠ "b" → load k s2 = load k s.
Proof.
  intros s.
  apply (delete_alias_safe "a" "b" 1 (NdArray [2] [1; 2]%Q) s);
    [discriminate|reflexivity|reflexivity|reflexivity].
Defined.

End StoreAccess.

Section StoreCreate.
Import H5 HybridDict.

Lemma fill_zero_all_zero a : all_zero (fill_zero a).
Proof.
  unfold all_zero, fill_zero. cbn. induction (buf a); constructor; done.
Qed.

(** X13. Re-creating a key whose value has the
    requested shape, of at least one dimension, zeroes the stored array in
    place and returns the stored object itself; nothing is allocated on
    the heap or in the backing file. *)
Lemma create_same_shape_reuses name data incore v a s :
  dict s !! name = Some v → deref v s = Ok a → shape a ≠ [] →
  ∃ s', create name data incore (Some (shape a)) s = Ok (v, s')
    ∧ write v (buf (fill_zero a)) s = Ok s'
    ∧ dict s' = dict s
    ∧ load name s' = Ok (Dense (fill_zero a))
    ∧ all_zero (fill_zero a)
    ∧ dom (heap s') = dom (heap s)
    ∧ dom (objs (chkfile s')) = dom (objs (chkfile s))
    ∧ links (chkfile s') = links (chkfile s).
Proof.
  intros Hk Hd Hsh.
  destruct (write_live v a (buf (fill_zero a)) s Hd) as [s' Hw].
  exists s'.
  destruct (write_inv _ _ _ _ Hw)
    as (a0 & Hd0 & Hd' & Hdict & _ & Hheap & Hobjs & Hlinks).
  assert (a0 = a) as -> by congruence.
  assert (zero_fill v s = Ok s') as Hz.
  { unfold zero_fill. rewrite Hd. cbn. by destruct (shape a). }
  split.
  { unfold create, get_shape. rewrite Hk, Hd. cbn.
    rewrite decide_True by done. rewrite Hz. cbn.
    do 2 f_equal. apply get_lookup. by rewrite Hdict. }
  split; [done|]. split; [done|].
  split; [eapply load_present; [by rewrite Hdict|done]|].
  split; [apply fill_zero_all_zero|done].
Qed.

(** When the stored value has no [shape]
    attribute, the entry is deleted and [create] allocates afresh. *)
Lemma create_without_shape_recreates name data incore shape o s :
  dict s !! name = Some (Obj o) →
  create name data incore shape s
  = (s' ← allocate name data incore shape
            (set_dict (base.delete name (dict s)) s);
     Ok (get name s', s')).
Proof.
  intros Hk. unfold create, get_shape, delete. rewrite Hk. done.
Qed.

Lemma deref_heap_insert_fresh v a a0 s :
  deref v s = Ok a →
  deref v (set_heap (<[fresh (dom (heap s)) := a0]> (heap s)) s) = Ok a.
Proof.
  destruct v as [l|ss d|o]; cbn; [|done|done].
  destruct (heap s !! l) eqn:E; [|done]. intros [= ->].
  rewrite lookup_insert_ne; [by rewrite E|].
  intros Heq. apply (elem_of_dom_2 (heap s)) in E.
  rewrite <- Heq in E. by apply is_fresh in E.
Qed.

(** C1, middle part, on the code. When the stored array's shape differs
    from the requested one, no exception is raised inside the [try], so
    nothing is deleted; for an in-memory request [setdefault] then finds the
    key present and leaves it alone: [create] returns the old object, with
    its old shape and its old content. *)
Theorem create_shape_mismatch_keeps_old (name : string) (data : value)
    (shape : option (list Z)) (v : value) (a : ndarray) (s : store) :
  dict s !! name = Some v →
  deref v s = Ok a →
  Some (Np.shape a) ≠ shape →
  is_None data = false ∨ (∃ sh a0, shape = Some sh ∧ zeros sh = Ok a0) →
  ∃ s', create name data true shape s = Ok (v, s')
    ∧ dict s' = dict s
    ∧ load name s' = Ok (Dense a).
Proof.
  intros Hk Hd Hsh Hargs.
  unfold create, get_shape. rewrite Hk, Hd. cbn.
  rewrite decide_False by done. cbn.
  unfold allocate. cbn [negb].
  destruct (is_None data) eqn:Hnone; cbn [negb].
  - destruct Hargs as [|(sh & a0 & -> & Hz)]; [done|].
    rewrite Hz. cbn.
    erewrite setdefault_present by (cbn; done).
    eexists. split.
    { do 2 f_equal. apply get_lookup. cbn. done. }
    split; [done|].
    eapply load_present; [cbn; done|]. by apply deref_heap_insert_fresh.
  - cbn. erewrite setdefault_present by done.
    eexists. split.
    { do 2 f_equal. by apply get_lookup. }
    split; [done|]. by eapply load_present.
Qed.

Lemma create_shape_mismatch_keeps_old_witness :
  let s := Store {["pdA_G_ia" := Arr 1]}
                 {[1%positive := NdArray [2] [1; 2]%Q]} H5.empty 0 in
  ∃ s', create "pdA_G_ia" (Obj PyNone) true (Some [3]) s = Ok (Arr 1, s')
    ∧ dict s' = dict s
    ∧ load "pdA_G_ia" s' = Ok (Dense (NdArray [2] [1; 2]%Q)).
Proof.
  intros s.
  apply (create_shape_mismatch_keeps_old "pdA_G_ia" (Obj PyNone) (Some [3])
           (Arr 1) (NdArray [2] [1; 2]%Q) s).
  - reflexivity.
  - reflexivity.
  - discriminate.
  - right. exists [3], (NdArray [3] [0; 0; 0]%Q). split; reflexivity.
Defined.

(** The same call on a disk-backed key does not delete it either: the
    dataset name is still linked, and h5py's [ValueError] escapes
    [create]. *)
Example create_shape_mismatch_on_disk :
  let s := Store {["t_ijab" := Dset 0 1]} ∅
             (File {["t_ijab" := 1%positive]}
                   {[1%positive := NdArray [2] [1; 2]%Q]}) 0 in
  create "t_ijab" (Obj PyNone) false (Some [3]) s = Raise ValueError.
Proof. vm_compute. reflexivity. Qed.

End StoreCreate.

Section StoreCheckpoint.
Import H5 HybridDict.

Lemma array_refs_elem (m : gmap string value) key l :
  m !! key = Some (Arr l) → l ∈ array_refs m.
Proof.
  intros Hk. unfold array_refs.
  apply elem_of_list_to_set, list_elem_of_omap.
  exists (key, Arr l). split; [|done]. by apply elem_of_map_to_list.
Qed.

Lemma pickle_dump_heap (m : gmap string value) (h : gmap loc ndarray) key l :
  m !! key = Some (Arr l) →
  filter (λ la, la.1 ∈ array_refs m) h !! l = h !! l.
Proof.
  intros Hk.
  destruct (h !! l) as [a|] eqn:E.
  - apply map_lookup_filter_Some. split; [done|]. cbn.
    by eapply array_refs_elem.
  - apply map_lookup_filter_None. by left.
Qed.

Lemma in_memory_lookup (m : gmap string value) key :
  filter (λ kv, is_Dataset kv.2 = false) m !! key
  = match m !! key with
    | Some v => if is_Dataset v then None else Some v
    | None => None
    end.
Proof.
  destruct (m !! key) as [v|] eqn:E.
  - destruct (is_Dataset v) eqn:Hd.
    + apply map_lookup_filter_None. right. intros x Hx. cbn. congruence.
    + by apply map_lookup_filter_Some.
  - apply map_lookup_filter_None. by left.
Qed.

Lemma dataset_handles_dom sess f :
  dom (dataset_handles sess f) = get_dataset_keys f.
Proof. unfold dataset_handles, get_dataset_keys. apply dom_fmap_L. Qed.

Lemma consistent_spec s :
  consistent s = true ↔
  (∀ key ss d, dict s !! key = Some (Dset ss d) →
               ss = session s ∧ links (chkfile s) !! key = Some d)
  ∧ (∀ key d, links (chkfile s) !! key = Some d → is_Some (dict s !! key)).
Proof.
  unfold consistent. rewrite andb_true_iff, !bool_decide_eq_true.
  split; intros [H1 H2]; (split; [|done]).
  - intros key ss d Hk. specialize (H1 key _ Hk). cbn in H1.
    apply andb_true_iff in H1 as [Ha Hb].
    by apply bool_decide_eq_true in Ha, Hb.
  - intros key [l|ss d|o] Hk; cbn; [done| |done].
    destruct (H1 key ss d Hk) as [-> ->].
    by rewrite !bool_decide_eq_true_2.
Qed.

Lemma consistent_handle s key ss d :
  consistent s = true → dict s !! key = Some (Dset ss d) →
  ss = session s ∧ links (chkfile s) !! key = Some d.
Proof. intros [H1 _]%consistent_spec. apply H1. Qed.

Lemma consistent_link s key d :
  consistent s = true → links (chkfile s) !! key = Some d →
  is_Some (dict s !! key).
Proof. intros [_ H2]%consistent_spec. apply H2. Qed.

(** Stores built by [create] on new names are consistent, as long as the
    data handed over is not itself a dataset of the store. *)
Lemma init_consistent h : consistent (init h H5.empty) = true.
Proof.
  apply consistent_spec. split.
  - intros key ss d Hk. cbn in Hk. by rewrite lookup_empty in Hk.
  - intros key d Hk. cbn in Hk. by rewrite lookup_empty in Hk.
Qed.

Lemma insert_entry_consistent s name v :
  consistent s = true → is_Dataset v = false →
  consistent (set_dict (<[name := v]> (dict s)) s) = true.
Proof.
  intros [H1 H2]%consistent_spec Hv. apply consistent_spec. cbn. split.
  - intros key ss d Hk. destruct (decide (name = key)) as [->|Hne].
    + rewrite lookup_insert_eq in Hk. by injection Hk as ->.
    + rewrite lookup_insert_ne in Hk by done. by apply H1.
  - intros key d Hk. destruct (decide (name = key)) as [->|Hne].
    + rewrite lookup_insert_eq. by eexists.
    + rewrite lookup_insert_ne by done. by eapply H2.
Qed.

(** X21. [create] on a new name, with data that is not a dataset handle, keeps
    a consistent store consistent. *)
Lemma create_new_name_consistent name data incore shape s v s' :
  consistent s = true → dict s !! name = None → is_Dataset data = false →
  create name data incore shape s = Ok (v, s') →
  consistent s' = true.
Proof.
  intros Hc Hk Hdata. unfold create. rewrite Hk. cbn.
  destruct (allocate name data incore shape s) as [s1|e] eqn:Ha; [|done].
  cbn. intros [= _ <-]. revert Ha. unfold allocate.
  destruct incore; cbn [negb].
  - destruct (is_None data); cbn [negb].
    + destruct shape as [sh|]; [|done].
      destruct (zeros sh) as [a|]; [|done]. cbn. intros [= <-].
      rewrite setdefault_absent by done.
      by apply (insert_entry_consistent
                  (set_heap (<[fresh (dom (heap s)) := a]> (heap s)) s)).
    + intros [= <-]. rewrite setdefault_absent by done.
      by apply insert_entry_consistent.
  - destruct (dataset_data data s) as [a|]; [|done]. cbn.
    unfold create_dataset.
    destruct (match a with Some _ => _ | None => _ end) as [c|]; [|done].
    cbn. destruct (links (chkfile s) !! name) eqn:Hl; [done|]. cbn.
    rewrite lookup_insert_eq. intros [= <-].
    rewrite setdefault_absent by done. cbn.
    apply consistent_spec in Hc as [H1 H2]. apply consistent_spec. cbn.
    split.
    + intros key ss d Hkey. destruct (decide (name = key)) as [->|Hne].
      * rewrite lookup_insert_eq in Hkey. rewrite lookup_insert_eq.
        by injection Hkey as -> ->.
      * rewrite lookup_insert_ne in Hkey by done.
        rewrite lookup_insert_ne by done. by apply H1.
    + intros key d Hkey. destruct (decide (name = key)) as [->|Hne].
      * rewrite lookup_insert_eq. by eexists.
      * rewrite lookup_insert_ne in Hkey by done.
        rewrite lookup_insert_ne by done. by eapply H2.
Qed.

Lemma pick_dump_lookup s key :
  consistent s = true →
  dict (pick (dump s).1) !! key = reopened 1 <$> dict s !! key.
Proof.
  intros Hc. cbn. rewrite !lookup_union, lookup_empty.
  rewrite in_memory_lookup.
  unfold dataset_handles. rewrite lookup_fmap.
  destruct (dict s !! key) as [v|] eqn:Hk.
  - destruct v as [l|ss d|o]; cbn.
    + by destruct (links (chkfile s) !! key).
    + destruct (consistent_handle _ _ _ _ Hc Hk) as [_ ->]. done.
    + by destruct (links (chkfile s) !! key).
  - destruct (links (chkfile s) !! key) as [d|] eqn:Hl; [|done].
    destruct (consistent_link _ _ _ Hc Hl) as [v Hv]. congruence.
Qed.

(** After [dump] the original store holds a new handle for every dataset
    name of the backing file, also where the entry was in memory. *)
Lemma dump_lookup s key :
  dict (dump s).2 !! key
  = match links (chkfile s) !! key with
    | Some d => Some (Dset (S (session s)) d)
    | None => dict s !! key
    end.
Proof.
  cbn. rewrite lookup_union. unfold dataset_handles. rewrite lookup_fmap.
  destruct (links (chkfile s) !! key) as [d|]; cbn.
  - by destruct (dict s !! key).
  - by rewrite (left_id_L None (∪)).
Qed.

(** X24. When no in-memory entry has the name of a dataset of the backing
    file, the original store loads the same data after [dump] as before. *)
Lemma dump_preserves_load s key :
  consistent s = true →
  (∀ k v, dict s !! k = Some v → is_Dataset v = false →
          links (chkfile s) !! k = None) →
  load key (dump s).2 = load key s.
Proof.
  intros Hc Hmem. unfold load, get. rewrite dump_lookup.
  destruct (dict s !! key) as [v|] eqn:Hk.
  - destruct v as [l|ss d|o].
    + by rewrite (Hmem _ _ Hk).
    + destruct (consistent_handle _ _ _ _ Hc Hk) as [-> ->]. cbn.
      by rewrite !decide_True by done.
    + by rewrite (Hmem _ _ Hk).
  - destruct (links (chkfile s) !! key) as [d|] eqn:Hl; [|done].
    destruct (consistent_link _ _ _ Hc Hl) as [v Hv]. congruence.
Qed.

(** C3, as the code has it. For a consistent store (each disk-backed key
    holds a live handle on the dataset linked under that key, and each
    dataset of the backing file is a key), [dump] followed by [pick] gives
    a store with the same keys, where every key loads the same data as in
    the store that was dumped and is disk-backed exactly when it was. *)
Theorem dump_pick_roundtrip (s : store) :
  consistent s = true →
  let r := pick (dump s).1 in
  dom (dict r) = dom (dict s)
  ∧ (∀ key, load key r = load key s)
  ∧ (∀ key, is_Dataset <$> dict r !! key = is_Dataset <$> dict s !! key).
Proof.
  intros Hc r.
  assert (∀ key, dict r !! key = reopened 1 <$> dict s !! key) as Hr
    by (intros; by apply pick_dump_lookup).
  split.
  { apply set_eq. intros key. rewrite !elem_of_dom, Hr.
    by rewrite fmap_is_Some. }
  split.
  { intros key. unfold load, get. rewrite Hr.
    destruct (dict s !! key) as [v|] eqn:Hk; [|done].
    destruct v as [l|ss d|o]; cbn.
    - rewrite (right_id_L ∅ (∪)).
      erewrite pickle_dump_heap; [done|].
      rewrite in_memory_lookup, Hk. done.
    - destruct (consistent_handle _ _ _ _ Hc Hk) as [-> _].
      by rewrite !decide_True by done.
    - done. }
  intros key. rewrite Hr. by destruct (dict s !! key) as [[]|].
Qed.

Lemma dump_pick_roundtrip_witness :
  let s := Store {["t_ijab" := Dset 0 1; "U_1" := Arr 1;
                   "kxc" := Obj (PyOpaque 0)]}
                 {[1%positive := NdArray [2] [3; 4]%Q]}
                 (File {["t_ijab" := 1%positive]}
                       {[1%positive := NdArray [2] [1; 2]%Q]}) 0 in
  let r := pick (dump s).1 in
  dom (dict r) = dom (dict s)
  ∧ (∀ key, load key r = load key s)
  ∧ (∀ key, is_Dataset <$> dict r !! key = is_Dataset <$> dict s !! key).
Proof.
  intros s. apply (dump_pick_roundtrip s). vm_compute. reflexivity.
Defined.

(** C3 fails on a store built with [create] alone in which a dataset is
    stored under a second key: the checkpoint knows datasets by their name
    in the file only, and the second key is missing after the restore. *)
Lemma dump_pick_alias_counterexample :
  let s0 := init ∅ H5.empty in
  ∃ v s1 s2,
    create "Y_ri" (Obj PyNone) false (Some [2]) s0 = Ok (v, s1)
    ∧ create "Y_alias" v true None s1 = Ok (v, s2)
    ∧ dict s2 !! "Y_alias" = Some (Dset 0 1)
    ∧ load "Y_alias" s2 = Ok (Dense (NdArray [2] [0; 0]%Q))
    ∧ dict (pick (dump s2).1) !! "Y_alias" = None
    ∧ load "Y_alias" (pick (dump s2).1) = Ok (Boxed PyNone)
    ∧ dom (dict (pick (dump s2).1)) ≠ dom (dict s2).
Proof.
  intros s0.
  exists (Dset 0 1),
    (Store {["Y_ri" := Dset 0 1]} ∅
           (File {["Y_ri" := 1%positive]} {[1%positive := NdArray [2] [0; 0]%Q]}) 0),
    (Store {["Y_ri" := Dset 0 1; "Y_alias" := Dset 0 1]} ∅
           (File {["Y_ri" := 1%positive]} {[1%positive := NdArray [2] [0; 0]%Q]}) 0).
  split; [vm_compute; reflexivity|].
  split; [vm_compute; reflexivity|].
  split; [vm_compute; reflexivity|].
  split; [vm_compute; reflexivity|].
  split; [vm_compute; reflexivity|].
  split; [vm_compute; reflexivity|].
  intros Heq.
  assert ("Y_alias" ∈ dom (dict (pick (dump
            (Store {["Y_ri" := Dset 0 1; "Y_alias" := Dset 0 1]} ∅
               (File {["Y_ri" := 1%positive]}
                     {[1%positive := NdArray [2] [0; 0]%Q]}) 0)).1))) as Hin.
  { rewrite Heq. apply elem_of_dom. eexists. vm_compute. reflexivity. }
  apply elem_of_dom in Hin as [x Hx]. vm_compute in Hx. discriminate Hx.
Qed.

End StoreCheckpoint.

Section Pipeline.
Import Polar.
Context {state : Type}.
Variable exec : stage → state → result state.
Variable xc : state → string.
Variable xc_type : string → result string.

Abbreviation call := (Polar.call state exec).
Abbreviation calls := (Polar.calls state exec).
Abbreviation kernel := (Polar.kernel state exec xc xc_type).
Abbreviation is_gga := (Polar.is_gga state xc xc_type).

Lemma calls_app l1 l2 r : calls (l1 ++ l2) r = calls l2 (calls l1 r).
Proof. unfold Polar.calls. apply fold_left_app. Qed.

Lemma calls_cons st l r : calls (st :: l) r = calls l (call st r).
Proof. done. Qed.

Lemma call_ok st tr mf :
  call st (Run state tr (Ok mf)) = Run state (tr ++ [st]) (exec st mf).
Proof. done. Qed.

Lemma call_raise st tr e :
  call st (Run state tr (Raise e)) = Run state tr (Raise e).
Proof. done. Qed.

Lemma calls_raise l tr e :
  calls l (Run state tr (Raise e)) = Run state tr (Raise e).
Proof.
  induction l as [|st l IH]; [done|]. by rewrite calls_cons, call_raise.
Qed.

(** A run invokes the methods of the list in order and stops at the first
    one that raises. *)
Lemma calls_trace l : ∀ r,
  ∃ l', l' `prefix_of` l
        ∧ trace (calls l r) = trace r ++ l'
        ∧ (∀ mf, final (calls l r) = Ok mf → l' = l ∧ ∃ mf0, final r = Ok mf0).
Proof.
  induction l as [|st l IH]; intros r.
  - exists []. split; [done|]. split; [by rewrite app_nil_r|].
    intros mf Hmf. eauto.
  - rewrite calls_cons. destruct r as [tr [mf0|e]].
    + rewrite call_ok.
      destruct (IH (Run state (tr ++ [st]) (exec st mf0)))
        as (l' & Hpre & Htr & Hok).
      exists (st :: l'). split; [by apply prefix_cons|].
      split; [rewrite Htr; cbn [trace]; by rewrite <- app_assoc|].
      intros mf Hmf. destruct (Hok mf Hmf) as [-> _].
      split; [done|]. cbn [final]. eauto.
    + rewrite call_raise, calls_raise.
      exists []. split; [apply prefix_nil|]. split; [by rewrite app_nil_r|].
      done.
Qed.

Lemma gga_stage_in_schedule st gga :
  st = prepare_dmU ∨ st = prepare_polar_Ax1_gga →
  st ∈ schedule gga ↔ gga = true.
Proof.
  intros Hst.
  assert (∀ b : bool, bool_decide (st ∈ schedule b) = b) as Hdec
    by (by intros []; destruct Hst as [-> | ->]).
  rewrite <- (Hdec gga) at 2. symmetry. apply bool_decide_eq_true.
Qed.

Lemma kernel_calls mf_dh :
  kernel mf_dh
  = let r := calls before_branch (Run state [] (Ok mf_dh)) in
    match final r with
    | Ok mf =>
        match is_gga mf with
        | Ok gga => calls ((if gga then gga_stages else []) ++ after_branch) r
        | Raise e => Run state (trace r) (Raise e)
        end
    | Raise _ => calls after_branch r
    end.
Proof.
  unfold Polar.kernel. cbn zeta.
  change (Polar.call state exec prepare_U_1 _)
    with (calls before_branch (Run state [] (Ok mf_dh))).
  destruct (final (calls before_branch (Run state [] (Ok mf_dh)))) as [mf|e];
    [|done].
  by destruct (is_gga mf) as [[]|].
Qed.

(** C4. A run of [kernel] that ends without an exception has invoked
    exactly: the eight stages up to [prepare_U_1]; then [prepare_dmU] and
    [prepare_polar_Ax1_gga] if and only if the functional of the object is
    classified "GGA" at that point; then the four closing stages: always
    in this order, nothing else deciding which stages run. *)
Theorem kernel_fixed_schedule (mf_dh mf' : state) :
  final (kernel mf_dh) = Ok mf' →
  ∃ mf gga, final (calls before_branch (Run state [] (Ok mf_dh))) = Ok mf
    ∧ is_gga mf = Ok gga
    ∧ trace (kernel mf_dh) = schedule gga
    ∧ schedule true = before_branch ++ gga_stages ++ after_branch
    ∧ schedule false = before_branch ++ after_branch
    ∧ (prepare_dmU ∈ trace (kernel mf_dh) ↔ gga = true)
    ∧ (prepare_polar_Ax1_gga ∈ trace (kernel mf_dh) ↔ gga = true).
Proof.
  intros Hok. rewrite kernel_calls in Hok |- *. cbn zeta in *.
  set (r0 := calls before_branch (Run state [] (Ok mf_dh))) in *.
  destruct (calls_trace before_branch (Run state [] (Ok mf_dh)))
    as (l1 & Hp1 & Ht1 & Hok1). fold r0 in Ht1, Hok1.
  destruct (final r0) as [mf|e] eqn:Hf0.
  2:{ destruct (calls_trace after_branch r0) as (l2 & _ & _ & Hok2).
      destruct (Hok2 _ Hok) as [_ [mf0 Hmf0]]. congruence. }
  destruct (Hok1 mf eq_refl) as [-> _].
  destruct (is_gga mf) as [gga|e] eqn:Hg; [|done].
  exists mf, gga. split; [done|]. split; [done|].
  destruct (calls_trace ((if gga then gga_stages else []) ++ after_branch)
              r0) as (l2 & Hp2 & Ht2 & Hok2).
  destruct (Hok2 _ Hok) as [-> _].
  assert (trace (calls ((if gga then gga_stages else []) ++ after_branch) r0)
          = schedule gga) as Htr.
  { rewrite Ht2, Ht1. done. }
  split; [done|]. split; [done|]. split; [done|].
  rewrite Htr. split; apply gga_stage_in_schedule; [by left|by right].
Qed.

(** X28. Whatever happens, the stages invoked are an initial part of one of
    the two schedules. *)
Lemma kernel_trace_prefix mf_dh :
  ∃ gga, trace (kernel mf_dh) `prefix_of` schedule gga.
Proof.
  rewrite kernel_calls. cbn zeta.
  set (r0 := calls before_branch (Run state [] (Ok mf_dh))).
  destruct (calls_trace before_branch (Run state [] (Ok mf_dh)))
    as (l1 & Hp1 & Ht1 & Hok1). fold r0 in Ht1, Hok1.
  destruct (final r0) as [mf|e] eqn:Hf0.
  - destruct (Hok1 mf eq_refl) as [-> _].
    destruct (is_gga mf) as [gga|e].
    + destruct (calls_trace ((if gga then gga_stages else []) ++ after_branch)
                  r0) as (l2 & Hp2 & Ht2 & _).
      exists gga. rewrite Ht2, Ht1. cbn [app].
      by apply prefix_app.
    + exists false. cbn [trace]. rewrite Ht1. cbn [app].
      change (schedule false) with (before_branch ++ after_branch).
      by apply prefix_app_r.
  - exists false. destruct r0 as [tr f]. cbn [final] in Hf0. subst f.
    rewrite calls_raise. cbn [trace app] in Ht1 |- *. subst tr.
    change (schedule false) with (before_branch ++ after_branch).
    by apply prefix_app_r.
Qed.

End Pipeline.

Section PipelineExample.
Import Polar.

(** A run in which every stage succeeds, on an object that is just its
    [xc] name. *)
Lemma kernel_fixed_schedule_witness :
  let exec := λ (_ : stage) (mf : string), Ok mf in
  let xc_type := λ xc : string,
    Ok (if String.eqb xc "LDA,VWN" then "LDA" else "GGA") in
  ∃ mf gga,
    final (calls string exec before_branch (Run string [] (Ok "B3LYPg"))) = Ok mf
    ∧ is_gga string id xc_type mf = Ok gga
    ∧ trace (kernel string exec id xc_type "B3LYPg") = schedule gga
    ∧ schedule true = before_branch ++ gga_stages ++ after_branch
    ∧ schedule false = before_branch ++ after_branch
    ∧ (prepare_dmU ∈ trace (kernel string exec id xc_type "B3LYPg")
       ↔ gga = true)
    ∧ (prepare_polar_Ax1_gga ∈ trace (kernel string exec id xc_type "B3LYPg")
       ↔ gga = true).
Proof.
  intros exec xc_type.
  apply (kernel_fixed_schedule exec id xc_type "B3LYPg" "B3LYPg").
  reflexivity.
Defined.

Example kernel_lda_trace :
  trace (kernel string (λ _ mf, Ok mf) id (λ _, Ok "LDA") "LDA,VWN")
  = schedule false.
Proof. reflexivity. Qed.

End PipelineExample.

(** The biorthogonalization in exact arithmetic: what the two branches
    compute, and how far apart they are. *)
Section Biorthogonalize.
Import Biorth.
Local Open Scope Q_scope.


Lemma biorthogonalize_short_circuit t cc c_os c_ss b i j :
  Qabs (- cc * c_ss) < tol →
  restricted_biorthogonalize t cc c_os c_ss b i j
  = cc * (c_os + c_ss) * t b i j
  ∧ restricted_biorthogonalize t cc c_os c_ss b i j
    - biorthogonal t cc c_os c_ss b i j == cc * c_ss * t b j i.
Proof.
  intros Hlt. unfold restricted_biorthogonalize.
  destruct (Qlt_le_dec (Qabs (- cc * c_ss)) tol) as [_|Hge].
  - split; [done|]. unfold scale, biorthogonal. ring.
  - exfalso. by apply (Qlt_not_le _ _ Hlt).
Qed.

(** X12. Below the threshold the gap to the general formula is at most
    [tol * |t b j i|]. *)
Lemma biorthogonalize_short_circuit_gap t cc c_os c_ss b i j :
  Qabs (- cc * c_ss) < tol →
  Qabs (restricted_biorthogonalize t cc c_os c_ss b i j
        - biorthogonal t cc c_os c_ss b i j)
  <= tol * Qabs (t b j i).
Proof.
  intros Hlt.
  destruct (biorthogonalize_short_circuit t cc c_os c_ss b i j Hlt)
    as [_ Hgap].
  rewrite Hgap, Qabs_Qmult.
  apply Qmult_le_compat_r; [|apply Qabs_nonneg].
  apply Qlt_le_weak.
  assert (Qabs (cc * c_ss) == Qabs (- cc * c_ss)) as ->; [|done].
  rewrite <- (Qabs_opp (cc * c_ss)).
  apply Qabs_wd. ring.
Qed.

(** The gap is real: with cc = 1, c_os = 1 and c_ss = 5e-8 the
    short-circuit branch is taken and the entry below the diagonal of a
    matrix with a single entry 1e8 above it is 0, where the general
    formula gives -5. *)
Example biorthogonalize_small_c_ss :
  let t : tensor := λ b i j, if (i =? 0)%nat && (j =? 1)%nat then 100000000 else 0 in
  restricted_biorthogonalize t 1 1 (5 # 100000000) 0%nat 1%nat 0%nat == 0
  ∧ biorthogonal t 1 1 (5 # 100000000) 0%nat 1%nat 0%nat == - (5).
Proof. split; reflexivity. Qed.




End Biorthogonalize.

(** * Further properties of the batch planner *)

Section BatchEdges.
Import Batch.

(** X1. A zero chunk is refused by [range] with a [ValueError]; a negative
    chunk is not refused: with start <= stop the range is empty and
    [gen_batch] returns no batch at all. *)
Theorem gen_batch_nonpositive_chunk (start stop chunk : Z) :
  chunk ≤ 0 → start ≤ stop →
  gen_batch start stop chunk
  = if chunk =? 0 then Raise ValueError else Ok [].
Proof.
  intros Hc Hle. unfold gen_batch, range.
  destruct (Z.eqb_spec chunk 0) as [->|Hne]; [done|].
  unfold range_len.
  destruct (Z.ltb_spec 0 chunk); [lia|].
  destruct (Z.ltb_spec stop start); [lia|]. done.
Qed.

Lemma gen_batch_nonpositive_chunk_witness :
  gen_batch 0 4 (-2) = (if -2 =? 0 then Raise ValueError else Ok []).
Proof. apply (gen_batch_nonpositive_chunk 0 4 (-2)); lia. Defined.

Lemma batches_length lo hi step n : length (batches lo hi step n) = n.
Proof. unfold batches. by rewrite !length_map, length_seq. Qed.

(** X2. The number of batches is the quotient (stop - start) / chunk rounded
    up. *)
Theorem gen_batch_count (start stop chunk : Z) :
  1 ≤ chunk → start ≤ stop →
  ∃ l, gen_batch start stop chunk = Ok l
       ∧ Z.of_nat (length l) = (stop - start + chunk - 1) / chunk.
Proof.
  intros Hc Hle. rewrite gen_batch_unfold by lia.
  eexists. split; [done|]. rewrite batches_length.
  pose proof (range_len_nonneg start stop chunk ltac:(lia)).
  rewrite Z2Nat.id by done.
  destruct (Z.lt_ge_cases start stop) as [Hlt|Hge].
  - rewrite range_len_pos by lia.
    replace (stop - start + chunk - 1) with (stop - start - 1 + 1 * chunk)
      by lia.
    rewrite Z.div_add by lia. lia.
  - rewrite range_len_empty by lia.
    replace (stop - start + chunk - 1) with (chunk - 1) by lia.
    rewrite Z.div_small by lia. done.
Qed.

Lemma gen_batch_count_witness :
  ∃ l, gen_batch 0 5 2 = Ok l
       ∧ Z.of_nat (length l) = (5 - 0 + 2 - 1) / 2.
Proof. apply (gen_batch_count 0 5 2); lia. Defined.

(** X3. When the chunk is at least as long as a non-empty range, there is one
    batch, the whole range. *)
Theorem gen_batch_single (start stop chunk : Z) :
  start < stop → stop - start ≤ chunk →
  gen_batch start stop chunk = Ok [Slice start stop].
Proof.
  intros Hlt Hc. rewrite gen_batch_unfold by lia.
  rewrite range_len_pos by lia. rewrite Z.div_small by lia.
  change (Z.to_nat (0 + 1)) with 1%nat. rewrite batches_S.
  destruct (Z.ltb_spec (start + chunk) stop); [lia|]. done.
Qed.

Lemma gen_batch_single_witness : gen_batch 0 4 7 = Ok [Slice 0 4].
Proof. apply (gen_batch_single 0 4 7); lia. Defined.

End BatchEdges.

Section ChunkBudget.
Import Float64 Num Chunk Batch.

(** X6. The planner as the stages use it: for a unit cost between 2^-500
    and 2^500 and a budget and a baseline cost of magnitude at most
    2^500 (ints or finite floats), [gen_batch(0, n, nbatch)] and
    [gen_batch(0, n, 2 * nbatch)] for [nbatch = calc_batch_size(...)] do
    not fail and visit every index of [0, n) once, in order. *)
Theorem planned_batches_cover (unit_flop mem_avail pre_flop : number) (n : Z) :
  moderate_pos unit_flop = true → moderate mem_avail = true →
  moderate pre_flop = true → (0 ≤ n)%Z →
  ∃ nbatch inner outer,
    calc_batch_size unit_flop mem_avail pre_flop = Ok nbatch
    ∧ gen_batch 0 n nbatch = Ok inner
    ∧ gen_batch 0 n (2 * nbatch) = Ok outer
    ∧ tiles 0 n inner ∧ tiles 0 n outer
    ∧ flat_map indices inner = indices (Slice 0 n)
    ∧ flat_map indices outer = indices (Slice 0 n).
Proof.
  intros Hu Hm Hp Hn.
  destruct (calc_batch_size_returns unit_flop mem_avail pre_flop Hu Hm Hp)
    as (nb & _ & -> & Hnb & _).
  exists nb. rewrite !gen_batch_unfold by lia.
  do 2 eexists. split; [done|]. split; [done|]. split; [done|].
  assert (∀ c, (1 ≤ c)%Z →
            tiles 0 n (batches 0 n c (Z.to_nat (range_len 0 n c)))) as Ht.
  { intros c Hc. apply batches_tiles; [lia|lia|].
    pose proof (range_len_nonneg 0 n c ltac:(lia)). lia. }
  split; [apply Ht; lia|]. split; [apply Ht; lia|].
  split; apply tiles_indices, Ht; lia.
Qed.

(** The call of [prepare_pdA_Y_ia_ri] for 100 orbitals, 4000 MB and a
    baseline of 30000 numbers, planning 250 auxiliary functions. *)
Lemma planned_batches_cover_witness :
  ∃ nbatch inner outer,
    calc_batch_size (PyInt (8 * 100 ^ 2)) (PyFloat (Fin 4000)) (PyInt 30000)
    = Ok nbatch
    ∧ gen_batch 0 250 nbatch = Ok inner
    ∧ gen_batch 0 250 (2 * nbatch) = Ok outer
    ∧ tiles 0 250 inner ∧ tiles 0 250 outer
    ∧ flat_map indices inner = indices (Slice 0 250)
    ∧ flat_map indices outer = indices (Slice 0 250).
Proof.
  apply (planned_batches_cover (PyInt (8 * 100 ^ 2)) (PyFloat (Fin 4000))
           (PyInt 30000) 250); [reflexivity..|lia].
Defined.

End ChunkBudget.

(** * Block offsets, argument sizes and functional names *)

Section BlockLoop.
Import Batch Grid.

Lemma block_slices_indices sizes : ∀ ip,
  Forall (λ n, 0 ≤ n) sizes →
  flat_map indices (block_slices ip sizes)
  = indices (Slice ip (ip + foldr Z.add 0 sizes)).
Proof.
  induction sizes as [|n sizes IH]; intros ip Hpos; cbn [block_slices flat_map foldr].
  - unfold indices. cbn [start stop].
    by replace (ip + 0 - ip) with 0 by lia.
  - inversion Hpos as [|? ? Hn Hrest]; subst.
    rewrite IH by done.
    replace (ip + (n + foldr Z.add 0 sizes))
      with (ip + n + foldr Z.add 0 sizes) by lia.
    apply indices_app; [lia|].
    assert (0 ≤ foldr Z.add 0 sizes); [|lia].
    clear -Hrest. induction Hrest; cbn; lia.
Qed.

Lemma block_slices_tiles sizes : ∀ ip,
  Forall (λ n, 0 < n) sizes →
  tiles ip (ip + foldr Z.add 0 sizes) (block_slices ip sizes).
Proof.
  induction sizes as [|n sizes IH]; intros ip Hpos; cbn [block_slices tiles foldr].
  - lia.
  - inversion Hpos as [|? ? Hn Hrest]; subst. cbn [start stop].
    split; [done|]. split; [lia|].
    replace (ip + (n + foldr Z.add 0 sizes))
      with (ip + n + foldr Z.add 0 sizes) by lia.
    by apply IH.
Qed.

(** X7. The slices [ip : ip + ngrid] a block loop writes to cover the columns
    0 .. (sum of the block sizes) - 1 once each, in order; with no empty
    block they tile that range. *)
Theorem block_slices_cover (sizes : list Z) :
  Forall (λ n, 0 ≤ n) sizes →
  flat_map indices (block_slices 0 sizes)
  = indices (Slice 0 (foldr Z.add 0 sizes))
  ∧ (Forall (λ n, 0 < n) sizes →
     tiles 0 (foldr Z.add 0 sizes) (block_slices 0 sizes)).
Proof.
  intros Hpos. split.
  - by rewrite block_slices_indices.
  - intros Hne. by apply (block_slices_tiles sizes 0).
Qed.

Lemma block_slices_cover_witness :
  flat_map indices (block_slices 0 [3; 0; 2])
  = indices (Slice 0 (foldr Z.add 0 [3; 0; 2]))
  ∧ (Forall (λ n, 0 < n) [3; 0; 2] →
     tiles 0 (foldr Z.add 0 [3; 0; 2]) (block_slices 0 [3; 0; 2])).
Proof.
  apply (block_slices_cover [3; 0; 2]). repeat constructor; lia.
Defined.

End BlockLoop.

Section TotSize.
Import Sizes.

Lemma pyarg_ind (P : pyarg → Prop) :
  (∀ a, P (ANd a)) → (∀ l, Forall P l → P (ASeq l)) → (∀ n, P (AOther n)) →
  ∀ i, P i.
Proof.
  intros Hn Hs Ho. fix IH 1. intros [a|l|n]; [apply Hn| |apply Ho].
  apply Hs. induction l as [|i l IHl]; constructor; [apply IH|apply IHl].
Qed.

Lemma item_size_seq l : item_size (ASeq l) = size_loop l 0.
Proof. done. Qed.

Lemma leaves_cons i l : leaves_of (i :: l) = leaves i ++ leaves_of l.
Proof. done. Qed.

Lemma total_size_app l1 l2 :
  total_size (l1 ++ l2) = total_size l1 + total_size l2.
Proof.
  induction l1 as [|i l1 IH]; [done|].
  unfold total_size in *. cbn [app foldr]. lia.
Qed.

Lemma size_loop_leaves l :
  Forall (λ i, item_size i = leaves_result 0 (leaves i)) l →
  ∀ size, size_loop l size = leaves_result size (leaves_of l).
Proof.
  induction 1 as [|i l Hi _ IH]; intros size.
  - unfold leaves_result. cbn. f_equal. lia.
  - cbn [size_loop]. rewrite Hi, leaves_cons. unfold leaves_result.
    rewrite forallb_app, total_size_app.
    destruct (forallb is_array (leaves i)); cbn [mbind result_bind andb];
      [|done].
    rewrite IH. unfold leaves_result.
    destruct (forallb is_array (leaves_of l)); [|done]. f_equal. lia.
Qed.

Lemma item_size_leaves i : item_size i = leaves_result 0 (leaves i).
Proof.
  induction i as [a|l IH|n] using pyarg_ind; [|by apply size_loop_leaves|done].
  unfold leaves_result. cbn. f_equal. lia.
Qed.

(** X8. [tot_size] is the sum of the sizes of all arrays among its arguments,
    however they are nested in lists and tuples; it raises [TypeError]
    exactly when some argument, at any depth, is neither an array nor a
    sequence; and it is additive over concatenated argument lists. *)
Theorem tot_size_leaves (args : list pyarg) :
  tot_size args
  = (if forallb is_array (leaves_of args)
     then Ok (total_size (leaves_of args)) else Raise TypeError)
  ∧ tot_size (leaves_of args) = tot_size args
  ∧ ∀ more n m, tot_size args = Ok n → tot_size more = Ok m →
      tot_size (args ++ more) = Ok (n + m).
Proof.
  assert (∀ l, tot_size l
               = if forallb is_array (leaves_of l)
                 then Ok (total_size (leaves_of l)) else Raise TypeError)
    as Hsize.
  { intros l. unfold tot_size. rewrite item_size_leaves.
    unfold leaves_result. by destruct (forallb _ _). }
  assert (∀ l1 l2, leaves_of (l1 ++ l2) = leaves_of l1 ++ leaves_of l2)
    as Happ.
  { intros l1 l2. induction l1 as [|i l1 IH]; [done|].
    cbn [app]. by rewrite !leaves_cons, IH, app_assoc. }
  assert (∀ i, leaves_of (leaves i) = leaves i) as Hidem.
  { induction i as [a|l IH|n] using pyarg_ind; [done| |done].
    change (leaves (ASeq l)) with (leaves_of l).
    induction IH as [|i l Hi _ IHl]; [done|].
    by rewrite leaves_cons, Happ, Hi, IHl. }
  split; [apply Hsize|]. split.
  - pose proof (Hidem (ASeq args)) as Hi.
    change (leaves (ASeq args)) with (leaves_of args) in Hi.
    by rewrite !Hsize, Hi.
  - intros more n m. rewrite !Hsize, Happ, forallb_app, total_size_app.
    destruct (forallb is_array (leaves_of args)); [|done].
    destruct (forallb is_array (leaves_of more)); [|done].
    by intros [= <-] [= <-].
Qed.

Example tot_size_nested :
  let a := ANd (NdArray [2; 3] []) in
  let b := ANd (NdArray [4] []) in
  tot_size [a; ASeq [b; ASeq [a]]] = Ok 16
  ∧ tot_size [a; ASeq [b; AOther 0]] = Raise TypeError.
Proof. split; reflexivity. Qed.

End TotSize.

Section FunctionalNames.
Import Stdlib.Strings.Ascii.
Import XC Biorth.
Local Open Scope Q_scope.

Lemma remove_char_app c s1 s2 :
  remove_char c (String.append s1 s2)
  = String.append (remove_char c s1) (remove_char c s2).
Proof.
  induction s1 as [|a s1 IH]; [reflexivity|].
  simpl. destruct (Ascii.eqb a c); [apply IH|].
  simpl. by rewrite IH.
Qed.

Lemma lower_char_not_separator a c :
  c = "-"%char ∨ c = "_"%char →
  Ascii.eqb (lower_char a) c = Ascii.eqb a c.
Proof.
  intros [-> | ->];
    destruct a as [[] [] [] [] [] [] [] []]; reflexivity.
Qed.

Lemma lower_remove_char c s :
  c = "-"%char ∨ c = "_"%char →
  lower (remove_char c s) = remove_char c (lower s).
Proof.
  intros Hc. induction s as [|a s IH]; [reflexivity|]. cbn [remove_char lower].
  rewrite lower_char_not_separator by done.
  destruct (Ascii.eqb a c); [apply IH|]. cbn [lower]. by rewrite IH.
Qed.

(** X9. The name of a functional is read without regard to hyphens,
    underscores and letter case: inserting a hyphen or an underscore
    anywhere, or changing the case of letters, does not change what
    [parse_xc_dh] returns or whether it raises. *)
Theorem parse_xc_dh_spelling :
  (∀ s1 s2, parse_xc_dh (String.append s1 (String "-" s2))
            = parse_xc_dh (String.append s1 s2))
  ∧ (∀ s1 s2, parse_xc_dh (String.append s1 (String "_" s2))
              = parse_xc_dh (String.append s1 s2))
  ∧ (∀ s s', lower s = lower s' → parse_xc_dh s = parse_xc_dh s').
Proof.
  split; [|split].
  - intros s1 s2. unfold parse_xc_dh. by rewrite !remove_char_app.
  - intros s1 s2. unfold parse_xc_dh. by rewrite !remove_char_app.
  - intros s s' Heq. unfold parse_xc_dh.
    rewrite !(lower_remove_char "_") by (by right).
    rewrite !(lower_remove_char "-") by (by left).
    by rewrite Heq.
Qed.

Example parse_xc_dh_names :
  parse_xc_dh "XYGJ-OS" = parse_xc_dh "xygjos"
  ∧ parse_xc_dh "xDH_PBE0" = parse_xc_dh "xdhpbe0"
  ∧ parse_xc_dh "b3lyp" = Raise KeyError.
Proof. repeat split; reflexivity. Qed.

Lemma biorthogonalize_zero_ss t cc c_os b i j :
  restricted_biorthogonalize t cc c_os 0 b i j
  == biorthogonal t cc c_os 0 b i j.
Proof.
  unfold restricted_biorthogonalize.
  destruct (Qlt_le_dec _ _);
    unfold add, scale, transpose, biorthogonal; ring.
Qed.

Lemma biorthogonalize_above_tol t cc c_os c_ss b i j :
  tol <= Qabs (- cc * c_ss) →
  restricted_biorthogonalize t cc c_os c_ss b i j
  == biorthogonal t cc c_os c_ss b i j.
Proof.
  intros Hge. unfold restricted_biorthogonalize.
  destruct (Qlt_le_dec (Qabs (- cc * c_ss)) tol) as [Hlt|_].
  - exfalso. by apply (Qlt_not_le _ _ Hlt).
  - unfold add, scale, transpose, biorthogonal. ring.
Qed.

(** X10. The parameters [parse_xc_dh] returns, for any name it accepts: the
    opposite-spin coefficient is 1, the same-spin coefficient is 0 or 1 and
    cc lies between 1/8 and 1.  So the 1e-7 test of
    [restricted_biorthogonalize] separates c_ss = 0 from c_ss = 1, and for
    every functional of the table the transform is exactly
    cc * ((c_os + c_ss) * t - c_ss * swap of t) (in exact arithmetic). *)
Theorem parse_xc_dh_params (name : string) (row : dh_params) :
  parse_xc_dh name = Ok row →
  c_os row = 1
  ∧ (c_ss row = 0 ∨ c_ss row = 1)
  ∧ (1 # 8) <= cc row ∧ cc row <= 1
  ∧ ∀ t b i j,
      restricted_biorthogonalize t (cc row) (c_os row) (c_ss row) b i j
      == biorthogonal t (cc row) (c_os row) (c_ss row) b i j.
Proof.
  unfold parse_xc_dh.
  destruct (XC_DH_MAP !! _) as [r|] eqn:E; [|done]. intros [= <-].
  unfold XC_DH_MAP in E. apply elem_of_list_to_map_2 in E.
  repeat (apply elem_of_cons in E as [E|E];
    [injection E as _ ->; cbn [c_os c_ss cc];
     split; [done|]; split; [by auto|];
     split; [vm_compute; discriminate|];
     split; [vm_compute; discriminate|];
     intros t b i j;
     first [ apply biorthogonalize_zero_ss
           | apply biorthogonalize_above_tol; vm_compute; discriminate ]
    |]).
  by apply elem_of_nil in E.
Qed.

Lemma parse_xc_dh_params_witness :
  c_os (DhParams "B3LYPg"
          (Some "0.7731*HF + 0.2269*LDA, 0.2309*VWN3 + 0.2754*LYP")
          (4364 # 10000) 1 0) = 1
  ∧ (0 = 0 ∨ 0 = 1)
  ∧ (1 # 8) <= 4364 # 10000 ∧ 4364 # 10000 <= 1
  ∧ ∀ t b i j,
      restricted_biorthogonalize t (4364 # 10000) 1 0 b i j
      == biorthogonal t (4364 # 10000) 1 0 b i j.
Proof.
  apply (parse_xc_dh_params "XYGJ-OS"
           (DhParams "B3LYPg"
              (Some "0.7731*HF + 0.2269*LDA, 0.2309*VWN3 + 0.2754*LYP")
              (4364 # 10000) 1 0)).
  reflexivity.
Defined.

(** X11. In exact arithmetic the transform is the formula, entry by entry,
    whenever the same-spin coefficient vanishes or |cc * c_ss| reaches the
    threshold. *)
Theorem biorthogonalize_exact (t : tensor) (cc c_os c_ss : Q) (b i j : nat) :
  c_ss == 0 ∨ tol <= Qabs (- cc * c_ss) →
  restricted_biorthogonalize t cc c_os c_ss b i j
  == biorthogonal t cc c_os c_ss b i j.
Proof.
  intros Hcase. unfold restricted_biorthogonalize.
  destruct (Qlt_le_dec (Qabs (- cc * c_ss)) tol) as [Hlt|Hge].
  - destruct Hcase as [Hz|Hge].
    + unfold scale, biorthogonal. rewrite Hz. ring.
    + exfalso. by apply (Qlt_not_le _ _ Hlt).
  - unfold add, scale, transpose, biorthogonal. ring.
Qed.

Lemma biorthogonalize_exact_witness :
  restricted_biorthogonalize (λ b i j, inject_Z (Z.of_nat (i + 2 * j)))
    (3211 # 10000) 1 1 0%nat 1%nat 2%nat
  == biorthogonal (λ b i j, inject_Z (Z.of_nat (i + 2 * j)))
       (3211 # 10000) 1 1 0%nat 1%nat 2%nat.
Proof.
  apply (biorthogonalize_exact (λ b i j, inject_Z (Z.of_nat (i + 2 * j)))
           (3211 # 10000) 1 1 0%nat 1%nat 2%nat).
  right. vm_compute. discriminate.
Defined.

End FunctionalNames.

(** * Further properties of the store *)

Section StoreFrame.
Import H5 HybridDict Frame.

Lemma extends_refl s : extends s s.
Proof. done. Qed.

Lemma extends_trans s1 s2 s3 : extends s1 s2 → extends s2 s3 → extends s1 s3.
Proof.
  intros (Hs & Hh & Ho) (Hs' & Hh' & Ho'). split; [congruence|].
  split; by etrans.
Qed.

Lemma extends_deref v a s s' : extends s s' → deref v s = Ok a → deref v s' = Ok a.
Proof.
  intros (Hs & Hh & Ho). destruct v as [l|ss d|o]; cbn; [| |done].
  - destruct (heap s !! l) as [a0|] eqn:E; [|done]. intros [= ->].
    by rewrite (lookup_weaken _ _ _ _ E Hh).
  - rewrite Hs. case_decide; [|done].
    destruct (objs (chkfile s) !! d) as [a0|] eqn:E; [|done]. intros [= ->].
    by rewrite (lookup_weaken _ _ _ _ E Ho).
Qed.

Lemma extends_asarray v r s s' :
  extends s s' → asarray v s = Ok r → asarray v s' = Ok r.
Proof.
  intros Hext. unfold asarray. destruct v as [l|ss d|o]; [| |done].
  - destruct (deref (Arr l) s) as [a|] eqn:E; [|done].
    by rewrite (extends_deref _ _ _ _ Hext E).
  - destruct (deref (Dset ss d) s) as [a|] eqn:E; [|done].
    by rewrite (extends_deref _ _ _ _ Hext E).
Qed.

Lemma extends_load k r s s' :
  extends s s' → dict s' !! k = dict s !! k → load k s = Ok r → load k s' = Ok r.
Proof.
  intros Hext Hk. unfold load, get. rewrite Hk. by apply extends_asarray.
Qed.

Lemma heap_alloc_extends a s :
  extends s (set_heap (<[fresh (dom (heap s)) := a]> (heap s)) s).
Proof.
  split; [done|]. split; [|done]. cbn.
  apply insert_subseteq, not_elem_of_dom, is_fresh.
Qed.

Lemma set_dict_extends m s s' : extends s s' → extends s (set_dict m s').
Proof. done. Qed.

Lemma setdefault_extends k v s s' : extends s s' → extends s (setdefault k v s').
Proof. unfold setdefault. by destruct (dict s' !! k). Qed.

Lemma setdefault_frame k v s k' :
  k' ≠ k → dict (setdefault k v s) !! k' = dict s !! k'.
Proof.
  intros Hne. unfold setdefault. destruct (dict s !! k); [done|].
  cbn. by rewrite lookup_insert_ne.
Qed.

Lemma forallb_nonneg sh :
  Forall (λ d, 0 ≤ d) sh → forallb (λ d, 0 <=? d) sh = true.
Proof.
  induction 1 as [|d sh Hd _ IH]; [done|]. cbn. rewrite IH.
  by destruct (Z.leb_spec 0 d); [|lia].
Qed.

Lemma create_dataset_inv name shape data f f' :
  create_dataset name shape data f = Ok f' →
  links f !! name = None
  ∧ ∃ content, f' = File (<[name := fresh (dom (objs f))]> (links f))
                         (<[fresh (dom (objs f)) := content]> (objs f))
      ∧ (∀ a, data = Some a → shape = None → content = a).
Proof.
  unfold create_dataset.
  destruct (match data with Some _ => _ | None => _ end) as [c|] eqn:Hc;
    [|done]. cbn.
  destruct (links f !! name); [done|]. intros [= <-].
  split; [done|]. exists c. split; [done|].
  intros a -> ->. by injection Hc as ->.
Qed.

Lemma allocate_inv name data incore shape s s' :
  allocate name data incore shape s = Ok s' →
  extends s s'
  ∧ (∀ k, k ≠ name → dict s' !! k = dict s !! k)
  ∧ is_Some (dict s' !! name)
  ∧ (∀ k, k ≠ name → links (chkfile s') !! k = links (chkfile s) !! k)
  ∧ (incore = true → chkfile s' = chkfile s).
Proof.
  unfold allocate. destruct incore; cbn [negb].
  - destruct (is_None data); cbn [negb].
    + destruct shape as [sh|]; [|done].
      destruct (zeros sh) as [a|]; [|done]. cbn. intros [= <-].
      split; [apply setdefault_extends, heap_alloc_extends|].
      split; [intros k Hk; by rewrite setdefault_frame|].
      split; [rewrite setdefault_get; by eexists|].
      split; [intros k Hk|intros _];
        unfold setdefault; by destruct (dict _ !! name).
    + intros [= <-]. split; [apply setdefault_extends, extends_refl|].
      split; [intros k Hk; by rewrite setdefault_frame|].
      split; [rewrite setdefault_get; by eexists|].
      split; [intros k Hk|intros _];
        unfold setdefault; by destruct (dict _ !! name).
  - destruct (dataset_data data s) as [a|]; [|done]. cbn.
    destruct (create_dataset name shape a (chkfile s)) as [f|] eqn:Hf; [|done].
    cbn. apply create_dataset_inv in Hf as (Hl & c & -> & _). cbn.
    rewrite lookup_insert_eq. intros [= <-].
    split.
    { apply setdefault_extends. split; [done|]. split; [done|]. cbn.
      apply insert_subseteq, not_elem_of_dom, is_fresh. }
    split; [intros k Hk; by rewrite setdefault_frame|].
    split; [rewrite setdefault_get; by eexists|].
    split; [|done]. intros k Hk.
    unfold setdefault. destruct (dict _ !! name); cbn;
      by rewrite lookup_insert_ne.
Qed.

Lemma delete_inv key v s :
  dict s !! key = Some v →
  delete key s
  = Ok (Store (base.delete key (dict s)) (heap s)
              (File (if is_Dataset v then base.delete key (links (chkfile s))
                     else links (chkfile s))
                    (objs (chkfile s)))
              (session s)).
Proof.
  intros Hk. destruct v as [l|ss d|o]; [| by eapply delete_present_dataset|];
    unfold delete; rewrite Hk; cbn; unfold set_dict; by destruct (chkfile s).
Qed.

Lemma write_extends_dict v b' s s' :
  write v b' s = Ok s' →
  session s' = session s ∧ dict s' = dict s
  ∧ links (chkfile s') = links (chkfile s).
Proof.
  intros Hw. by destruct (write_inv _ _ _ _ Hw) as (_ & _ & _ & ? & ? & _ & _ & ?).
Qed.

End StoreFrame.

Section StoreOperations.
Import H5 HybridDict Frame.

(** X14. Creating a new in-memory tensor from a shape: the store gets a new
    zero-filled array of that shape, which is no array that existed before;
    the other entries, what they load and the backing file are untouched. *)
Theorem create_new_zeros (name : string) (sh : list Z) (s : store) :
  dict s !! name = None → Forall (λ d, 0 ≤ d) sh →
  ∃ l s', create name (Obj PyNone) true (Some sh) s = Ok (Arr l, s')
    ∧ heap s !! l = None
    ∧ load name s'
      = Ok (Dense (NdArray sh (repeat 0%Q (Z.to_nat (size_of sh)))))
    ∧ (∀ k, k ≠ name → dict s' !! k = dict s !! k)
    ∧ (∀ k r, k ≠ name → load k s = Ok r → load k s' = Ok r)
    ∧ chkfile s' = chkfile s.
Proof.
  intros Hk Hsh. unfold create, allocate. rewrite Hk. cbn.
  unfold zeros. rewrite forallb_nonneg by done. cbn.
  rewrite setdefault_absent by done.
  set (l := fresh (dom (heap s))).
  assert (heap s !! l = None) as Hl by apply not_elem_of_dom, is_fresh.
  exists l. eexists. split.
  { do 2 f_equal. unfold get. cbn. by rewrite lookup_insert_eq. }
  split; [done|]. split.
  { unfold load, get. cbn. rewrite lookup_insert_eq. cbn.
    by rewrite lookup_insert_eq. }
  split; [intros k Hne; cbn; by rewrite lookup_insert_ne|].
  split; [|done]. intros k r Hne.
  apply extends_load; [|cbn; by rewrite lookup_insert_ne].
  apply set_dict_extends, heap_alloc_extends.
Qed.

Lemma create_new_zeros_witness :
  let s := Store {["U_1" := Arr 1]} {[1%positive := NdArray [1] [5%Q]]}
                 H5.empty 0 in
  ∃ l s', create "pdA_D_rdm1" (Obj PyNone) true (Some [3; 2]) s = Ok (Arr l, s')
    ∧ heap s !! l = None
    ∧ load "pdA_D_rdm1" s'
      = Ok (Dense (NdArray [3; 2] (repeat 0%Q (Z.to_nat (size_of [3; 2])))))
    ∧ (∀ k, k ≠ "pdA_D_rdm1" → dict s' !! k = dict s !! k)
    ∧ (∀ k r, k ≠ "pdA_D_rdm1" → load k s = Ok r → load k s' = Ok r)
    ∧ chkfile s' = chkfile s.
Proof.
  intros s. apply (create_new_zeros "pdA_D_rdm1" [3; 2] s);
    [reflexivity|repeat constructor; lia].
Defined.

(** X15. Creating a tensor from data: in memory the store keeps the caller's
    array itself, so later writes to that array show in [load]; on disk
    the data is copied into a new dataset, and later writes to the array
    do not reach it. *)
Theorem create_data_shares_or_copies (name : string) (l : loc) (a : ndarray)
    (s : store) :
  dict s !! name = None → links (chkfile s) !! name = None →
  heap s !! l = Some a →
  (∃ s1, create name (Arr l) true None s = Ok (Arr l, s1)
     ∧ load name s1 = Ok (Dense a)
     ∧ ∀ b' s2, write (Arr l) b' s1 = Ok s2 →
         load name s2 = Ok (Dense (NdArray (shape a) b')))
  ∧ (∃ d s1, create name (Arr l) false None s = Ok (Dset (session s) d, s1)
       ∧ objs (chkfile s) !! d = None
       ∧ load name s1 = Ok (Dense a)
       ∧ ∀ b' s2, write (Arr l) b' s1 = Ok s2 → load name s2 = Ok (Dense a)).
Proof.
  intros Hk Hlink Hl. split.
  - unfold create, allocate. rewrite Hk. cbn.
    rewrite setdefault_absent by done.
    eexists. split.
    { do 2 f_equal. unfold get. cbn. by rewrite lookup_insert_eq. }
    split.
    { unfold load, get. cbn. rewrite lookup_insert_eq. cbn. by rewrite Hl. }
    intros b' s2. unfold write. cbn. rewrite Hl. cbn. intros [= <-].
    unfold load, get. cbn. rewrite lookup_insert_eq. cbn.
    by rewrite lookup_insert_eq.
  - unfold create, allocate, dataset_data, create_dataset. rewrite Hk. cbn.
    rewrite Hl. cbn. rewrite Hlink. cbn. rewrite lookup_insert_eq.
    rewrite setdefault_absent by done. cbn.
    set (d := fresh (dom (objs (chkfile s)))).
    assert (objs (chkfile s) !! d = None) as Hd
      by apply not_elem_of_dom, is_fresh.
    exists d. eexists. split.
    { do 2 f_equal. unfold get. cbn. by rewrite lookup_insert_eq. }
    split; [done|]. split.
    { unfold load, get. cbn. rewrite lookup_insert_eq. cbn.
      rewrite decide_True by done. by rewrite lookup_insert_eq. }
    intros b' s2. unfold write. cbn. rewrite Hl. cbn. intros [= <-].
    unfold load, get. cbn. rewrite lookup_insert_eq. cbn.
    rewrite decide_True by done. by rewrite lookup_insert_eq.
Qed.

Lemma create_data_shares_or_copies_witness :
  let s := Store ∅ {[1%positive := NdArray [2] [3; 4]%Q]} H5.empty 0 in
  let a := NdArray [2] [3; 4]%Q in
  (∃ s1, create "H_1_ao" (Arr 1) true None s = Ok (Arr 1, s1)
     ∧ load "H_1_ao" s1 = Ok (Dense a)
     ∧ ∀ b' s2, write (Arr 1) b' s1 = Ok s2 →
         load "H_1_ao" s2 = Ok (Dense (NdArray (shape a) b')))
  ∧ (∃ d s1, create "H_1_ao" (Arr 1) false None s = Ok (Dset (session s) d, s1)
       ∧ objs (chkfile s) !! d = None
       ∧ load "H_1_ao" s1 = Ok (Dense a)
       ∧ ∀ b' s2, write (Arr 1) b' s1 = Ok s2 → load "H_1_ao" s2 = Ok (Dense a)).
Proof.
  intros s a.
  apply (create_data_shares_or_copies "H_1_ao" 1 a s); reflexivity.
Defined.

(** X16. An in-memory [create] with neither data nor shape never succeeds, on
    any store; on a new name it raises the [ValueError] of its last
    branch. *)
Theorem create_needs_data_or_shape (name : string) (s : store) :
  (∃ e, create name (Obj PyNone) true None s = Raise e)
  ∧ (dict s !! name = None →
     create name (Obj PyNone) true None s = Raise ValueError).
Proof.
  assert (∀ s0, (s1 ← allocate name (Obj PyNone) true None s0;
                 Ok (get name s1, s1)) = Raise ValueError) as Ha by done.
  split.
  - unfold create. destruct (dict s !! name) as [v|].
    2:{ exists ValueError. apply Ha. }
    unfold try_except. destruct (get_shape v s) as [sh|e].
    + exists ValueError. cbn [mbind result_bind].
      rewrite decide_False by done. apply Ha.
    + destruct e;
        try (eexists; reflexivity);
        (destruct (delete name s) as [s0|e0];
         [exists ValueError; apply Ha|exists e0; reflexivity]).
  - intros Hk. unfold create. rewrite Hk. apply Ha.
Qed.

(** X17. Re-creating a scalar (0-d) in-memory tensor with its own shape fails:
    the shapes agree, and the zero fill [v[:] = 0] raises [IndexError],
    which [create] does not catch. *)
Theorem create_scalar_again_raises (name : string) (data : value)
    (incore : bool) (l : loc) (a : ndarray) (s : store) :
  dict s !! name = Some (Arr l) → heap s !! l = Some a → shape a = [] →
  create name data incore (Some []) s = Raise IndexError.
Proof.
  intros Hk Hl Hsh. unfold create, get_shape, zero_fill. rewrite Hk. cbn.
  rewrite Hl. cbn. rewrite Hsh. cbn. done.
Qed.

Lemma create_scalar_again_raises_witness :
  ∃ v s1, create "E" (Obj PyNone) true (Some []) (init ∅ H5.empty) = Ok (v, s1)
    ∧ create "E" (Obj PyNone) true (Some []) s1 = Raise IndexError.
Proof.
  exists (Arr 1),
    (Store {["E" := Arr 1]} {[1%positive := NdArray [] [0%Q]]} H5.empty 0).
  split; [vm_compute; reflexivity|].
  apply (create_scalar_again_raises "E" (Obj PyNone) true 1 (NdArray [] [0%Q]));
    reflexivity.
Defined.

(** X18. A successful [create] changes no entry but the one of its name, keeps
    the file session, and removes no array and no dataset; when the name is
    new, whatever another key loaded before, it loads after. *)
Theorem create_frame (name : string) (data : value) (incore : bool)
    (shape : option (list Z)) (s s' : store) (v : value) :
  create name data incore shape s = Ok (v, s') →
  (∀ k, k ≠ name → dict s' !! k = dict s !! k)
  ∧ session s' = session s
  ∧ dom (heap s) ⊆ dom (heap s')
  ∧ dom (objs (chkfile s)) ⊆ dom (objs (chkfile s'))
  ∧ (dict s !! name = None →
     ∀ k r, k ≠ name → load k s = Ok r → load k s' = Ok r).
Proof.
  unfold create.
  assert (∀ s0 s1, allocate name data incore shape s0 = Ok s1 →
            (∀ k, k ≠ name → dict s1 !! k = dict s0 !! k)
            ∧ session s1 = session s0
            ∧ dom (heap s0) ⊆ dom (heap s1)
            ∧ dom (objs (chkfile s0)) ⊆ dom (objs (chkfile s1))
            ∧ extends s0 s1) as Halloc.
  { intros s0 s1 Ha.
    destruct (allocate_inv _ _ _ _ _ _ Ha) as (Hext & Hfr & _).
    destruct Hext as (Hs & Hh & Ho).
    repeat (split; [done || by apply subseteq_dom|]). done. }
  destruct (dict s !! name) as [v0|] eqn:Hv0; cbn.
  2:{ destruct (allocate name data incore shape s) as [s1|] eqn:Ha; [|done].
      cbn. intros [= _ <-].
      destruct (Halloc _ _ Ha) as (Hfr & Hs & Hh & Ho & Hext).
      repeat (split; [done|]). intros _ k r Hne.
      apply extends_load; [done|by apply Hfr]. }
  assert (∀ s0, (∀ k, k ≠ name → dict s0 !! k = dict s !! k) →
            session s0 = session s → dom (heap s) ⊆ dom (heap s0) →
            dom (objs (chkfile s)) ⊆ dom (objs (chkfile s0)) →
            (s1 ← allocate name data incore shape s0; Ok (get name s1, s1))
            = Ok (v, s') →
            (∀ k, k ≠ name → dict s' !! k = dict s !! k)
            ∧ session s' = session s
            ∧ dom (heap s) ⊆ dom (heap s')
            ∧ dom (objs (chkfile s)) ⊆ dom (objs (chkfile s'))
            ∧ (Some v0 = None → ∀ k r, k ≠ name →
               load k s = Ok r → load k s' = Ok r)) as Hcont.
  { intros s0 Hfr0 Hs0 Hh0 Ho0.
    destruct (allocate name data incore shape s0) as [s1|] eqn:Ha; [|done].
    cbn. intros [= _ <-].
    destruct (Halloc _ _ Ha) as (Hfr & Hs & Hh & Ho & _).
    split; [intros k Hne; by rewrite Hfr, Hfr0|].
    split; [congruence|]. split; [by etrans|]. split; [by etrans|done]. }
  assert (∀ s0, delete name s = Ok s0 →
            (∀ k, k ≠ name → dict s0 !! k = dict s !! k)
            ∧ session s0 = session s ∧ heap s0 = heap s
            ∧ objs (chkfile s0) = objs (chkfile s)) as Hdel.
  { intros s0. rewrite (delete_inv _ _ _ Hv0). intros [= <-]. cbn.
    split; [intros k Hne; by rewrite lookup_delete_ne|done]. }
  unfold try_except.
  destruct (get_shape v0 s) as [sh|e]; cbn.
  - case_decide.
    + destruct (zero_fill v0 s) as [s1|e] eqn:Hz; cbn.
      * intros [= _ <-]. apply zero_fill_inv in Hz as (a & _ & _ & Hw).
        destruct (write_inv _ _ _ _ Hw) as (_ & _ & _ & Hd & Hs & Hh & Ho & _).
        split; [intros k _; by rewrite Hd|]. split; [done|].
        split; [by rewrite Hh|]. split; [by rewrite Ho|done].
      * destruct e; cbn; try done;
          (destruct (delete name s) as [s0|] eqn:Hd; [|done]; cbn;
           destruct (Hdel _ eq_refl) as (Hfr & Hs & Hh & Ho);
           apply Hcont; [done|done|by rewrite Hh|by rewrite Ho]).
    + by apply Hcont.
  - destruct e; cbn; try done;
      (destruct (delete name s) as [s0|] eqn:Hd; [|done]; cbn;
       destruct (Hdel _ eq_refl) as (Hfr & Hs & Hh & Ho);
       apply Hcont; [done|done|by rewrite Hh|by rewrite Ho]).
Qed.

Lemma create_frame_witness :
  let s := Store {["U_1" := Arr 1]} {[1%positive := NdArray [1] [5%Q]]}
                 H5.empty 0 in
  let s' := Store {["U_1" := Arr 1; "D_r" := Arr 2]}
                  {[1%positive := NdArray [1] [5%Q];
                    2%positive := NdArray [2] [0; 0]%Q]} H5.empty 0 in
  (∀ k, k ≠ "D_r" → dict s' !! k = dict s !! k)
  ∧ session s' = session s
  ∧ dom (heap s) ⊆ dom (heap s')
  ∧ dom (objs (chkfile s)) ⊆ dom (objs (chkfile s'))
  ∧ (dict s !! "D_r" = None →
     ∀ k r, k ≠ "D_r" → load k s = Ok r → load k s' = Ok r).
Proof.
  intros s s'.
  apply (create_frame "D_r" (Obj PyNone) true (Some [2]) s s' (Arr 2)).
  vm_compute. reflexivity.
Defined.

End StoreOperations.

Section StoreDelete.
Import H5 HybridDict Frame.

(** X19. [delete] of a present key never fails.  It removes the entry, and for
    a disk-backed value the link of that name in the file; it destroys no
    array and no dataset storage, so every other key loads what it loaded.
    Afterwards the key loads as a missing key and a second [delete] raises
    [KeyError]. *)
Theorem delete_removes (key : string) (v : value) (s : store) :
  dict s !! key = Some v →
  ∃ s', delete key s = Ok s'
    ∧ dict s' = base.delete key (dict s)
    ∧ heap s' = heap s
    ∧ objs (chkfile s') = objs (chkfile s)
    ∧ session s' = session s
    ∧ links (chkfile s')
      = (if is_Dataset v then base.delete key (links (chkfile s))
         else links (chkfile s))
    ∧ (∀ k, k ≠ key → load k s' = load k s)
    ∧ load key s' = Ok (Boxed PyNone)
    ∧ delete key s' = Raise KeyError.
Proof.
  intros Hk. rewrite (delete_inv _ _ _ Hk). eexists. split; [done|]. cbn.
  repeat (split; [done|]).
  split.
  { intros k Hne. unfold load, get. cbn. rewrite lookup_delete_ne by done.
    destruct (dict s !! k) as [[l|ss d|o]|]; done. }
  split.
  - unfold load, get. cbn. by rewrite lookup_delete_eq.
  - unfold delete. cbn. by rewrite lookup_delete_eq.
Qed.

Lemma delete_removes_witness :
  let s := Store {["t_ijab" := Dset 0 1; "U_1" := Arr 1]}
                 {[1%positive := NdArray [1] [5%Q]]}
                 (File {["t_ijab" := 1%positive]}
                       {[1%positive := NdArray [2] [1; 2]%Q]}) 0 in
  ∃ s', delete "t_ijab" s = Ok s'
    ∧ dict s' = base.delete "t_ijab" (dict s)
    ∧ heap s' = heap s
    ∧ objs (chkfile s') = objs (chkfile s)
    ∧ session s' = session s
    ∧ links (chkfile s')
      = (if is_Dataset (Dset 0 1) then base.delete "t_ijab" (links (chkfile s))
         else links (chkfile s))
    ∧ (∀ k, k ≠ "t_ijab" → load k s' = load k s)
    ∧ load "t_ijab" s' = Ok (Boxed PyNone)
    ∧ delete "t_ijab" s' = Raise KeyError.
Proof.
  intros s. apply (delete_removes "t_ijab" (Dset 0 1) s). reflexivity.
Defined.

(** X20. [create] on a name that is neither a key nor a dataset name, followed
    by [delete] of that name, gives back the mapping and the links of the
    backing file; whatever a key loaded before, it loads after. *)
Theorem create_delete_roundtrip (name : string) (data : value) (incore : bool)
    (shape : option (list Z)) (s s1 : store) (v : value) :
  dict s !! name = None → links (chkfile s) !! name = None →
  create name data incore shape s = Ok (v, s1) →
  ∃ s2, delete name s1 = Ok s2
    ∧ dict s2 = dict s
    ∧ links (chkfile s2) = links (chkfile s)
    ∧ session s2 = session s
    ∧ ∀ k r, load k s = Ok r → load k s2 = Ok r.
Proof.
  intros Hk Hlink Hc.
  pose proof (create_returns_entry _ _ _ _ _ _ _ Hc) as Hv.
  revert Hc. unfold create. rewrite Hk. cbn [mbind result_bind].
  destruct (allocate name data incore shape s) as [s1'|] eqn:Ha; [|done].
  cbn [mbind result_bind]. intros [= _ <-].
  destruct (allocate_inv _ _ _ _ _ _ Ha) as (Hext & Hfr & _ & Hlfr & Hinc).
  rewrite (delete_inv _ _ _ Hv). eexists. split; [done|]. cbn.
  assert (base.delete name (dict s1') = dict s) as Hdict.
  { apply map_eq. intros k. destruct (decide (k = name)) as [->|Hne].
    - by rewrite lookup_delete_eq.
    - rewrite lookup_delete_ne by done. by apply Hfr. }
  assert ((if is_Dataset v then base.delete name (links (chkfile s1'))
           else links (chkfile s1')) = links (chkfile s)) as Hlinks.
  { assert (base.delete name (links (chkfile s1')) = links (chkfile s)) as Hd.
    { apply map_eq. intros k. destruct (decide (k = name)) as [->|Hne].
      - by rewrite lookup_delete_eq.
      - rewrite lookup_delete_ne by done. by apply Hlfr. }
    destruct (is_Dataset v) eqn:Hds; [done|].
    destruct incore; [by rewrite Hinc|].
    revert Ha. unfold allocate. cbn [negb].
    destruct (dataset_data data s) as [a|]; [|done]. cbn.
    destruct (create_dataset name shape a (chkfile s)) as [f|] eqn:Hf; [|done].
    cbn. apply create_dataset_inv in Hf as (_ & c & -> & _). cbn.
    rewrite lookup_insert_eq, setdefault_absent by done.
    intros [= <-]. cbn in Hv. rewrite lookup_insert_eq in Hv.
    injection Hv as <-. discriminate Hds. }
  split; [done|]. split; [done|]. split; [apply Hext|].
  intros k r. apply extends_load; [|cbn; by rewrite Hdict].
  destruct Hext as (Hs & Hh & Ho). done.
Qed.

Lemma create_delete_roundtrip_witness :
  let s := Store {["U_1" := Arr 1]} {[1%positive := NdArray [1] [5%Q]]}
                 H5.empty 0 in
  let s1 := Store {["U_1" := Arr 1; "t_ijab" := Dset 0 1]}
                  {[1%positive := NdArray [1] [5%Q]]}
                  (File {["t_ijab" := 1%positive]}
                        {[1%positive := NdArray [2] [0; 0]%Q]}) 0 in
  ∃ s2, delete "t_ijab" s1 = Ok s2
    ∧ dict s2 = dict s
    ∧ links (chkfile s2) = links (chkfile s)
    ∧ session s2 = session s
    ∧ ∀ k r, load k s = Ok r → load k s2 = Ok r.
Proof.
  intros s s1.
  apply (create_delete_roundtrip "t_ijab" (Obj PyNone) false (Some [2])
           s s1 (Dset 0 1)); [reflexivity|reflexivity|].
  vm_compute. reflexivity.
Defined.

End StoreDelete.

Section StoreInvariant.
Import H5 HybridDict Frame.

Lemma in_memory_lookup_Some (m : gmap string value) key v :
  in_memory m !! key = Some v ↔ m !! key = Some v ∧ is_Dataset v = false.
Proof. unfold in_memory. by rewrite map_lookup_filter_Some. Qed.

Lemma restored_lookup s key :
  dict (pick (dump s).1) !! key
  = match in_memory (dict s) !! key with
    | Some v => Some v
    | None => Dset 1 <$> links (chkfile s) !! key
    end.
Proof.
  cbn. rewrite !lookup_union, lookup_empty. unfold dataset_handles.
  rewrite lookup_fmap. fold (in_memory (dict s)).
  by destruct (in_memory (dict s) !! key), (links (chkfile s) !! key).
Qed.

Lemma restored_in_memory s :
  in_memory (dict (pick (dump s).1)) = in_memory (dict s).
Proof.
  apply map_eq. intros key. unfold in_memory at 1.
  rewrite in_memory_lookup, restored_lookup.
  destruct (in_memory (dict s) !! key) as [v|] eqn:E.
  - apply in_memory_lookup_Some in E as [_ ->]. done.
  - by destruct (links (chkfile s) !! key).
Qed.

(** X25. Whatever the store dumped, the store [pick] builds is consistent: its
    disk-backed keys are exactly the dataset names of its file, each with a
    live handle on the dataset of that name. *)
Theorem restored_store_consistent (s : store) :
  consistent (pick (dump s).1) = true
  ∧ ∀ key, is_Dataset <$> dict (pick (dump s).1) !! key = Some true
           → is_Some (links (chkfile (pick (dump s).1)) !! key).
Proof.
  split.
  - apply consistent_spec. split.
    + intros key ss d. rewrite restored_lookup.
      destruct (in_memory (dict s) !! key) as [v|] eqn:E.
      * apply in_memory_lookup_Some in E as [_ Hv]. intros [= ->]. done.
      * cbn. destruct (links (chkfile s) !! key); [|done].
        by intros [= <- <-].
    + intros key d Hl. rewrite restored_lookup.
      destruct (in_memory (dict s) !! key); [by eexists|].
      cbn in Hl. rewrite Hl. by eexists.
  - intros key. rewrite restored_lookup.
    destruct (in_memory (dict s) !! key) as [v|] eqn:E.
    + apply in_memory_lookup_Some in E as [_ Hv]. cbn. congruence.
    + cbn. destruct (links (chkfile s) !! key); [by eexists|done].
Qed.

(** X26. Which keys a checkpoint keeps, for any store.  The restored store has
    the in-memory keys of the dumped one, unchanged and loading the same
    data, plus one key per dataset name of the file; the dumping store
    itself keeps its keys and gets a new handle under every dataset name,
    also where it held an in-memory entry of that name. *)
Theorem checkpoint_keys (s : store) :
  dom (dict (pick (dump s).1))
  = dom (in_memory (dict s)) ∪ get_dataset_keys (chkfile s)
  ∧ dom (dict (dump s).2) = dom (dict s) ∪ get_dataset_keys (chkfile s)
  ∧ (∀ key d, links (chkfile s) !! key = Some d →
       dict (dump s).2 !! key = Some (Dset (S (session s)) d))
  ∧ (∀ key v, dict s !! key = Some v → is_Dataset v = false →
       dict (pick (dump s).1) !! key = Some v
       ∧ load key (pick (dump s).1) = load key s).
Proof.
  split; [|split; [|split]].
  - apply set_eq. intros key.
    rewrite elem_of_union, !elem_of_dom, restored_lookup.
    unfold get_dataset_keys. rewrite elem_of_dom.
    destruct (in_memory (dict s) !! key) as [v|].
    + split; [intros _; left|]; by eexists.
    + rewrite fmap_is_Some. split; [by right|].
      intros [[? ?]|?]; done.
  - cbn. rewrite dom_union_L, dataset_handles_dom. apply union_comm_L.
  - intros key d Hl. rewrite dump_lookup. by rewrite Hl.
  - intros key v Hk Hv.
    assert (in_memory (dict s) !! key = Some v) as Hm
      by (by apply in_memory_lookup_Some).
    assert (dict (pick (dump s).1) !! key = Some v) as Hr
      by (by rewrite restored_lookup, Hm).
    split; [done|]. unfold load, get. rewrite Hr, Hk.
    destruct v as [l|ss d|o]; [|done|done]. cbn.
    rewrite (right_id_L ∅ (∪)).
    by erewrite pickle_dump_heap by (fold (in_memory (dict s)); done).
Qed.

Lemma filter_twice {K A} `{Countable K} (P : K * A → Prop)
    `{!∀ x, Decision (P x)} (m : gmap K A) :
  filter P (filter P m) = filter P m.
Proof.
  apply map_eq. intros i.
  destruct (filter P m !! i) as [x|] eqn:E.
  - apply map_lookup_filter_Some. split; [done|].
    by apply map_lookup_filter_Some in E as [_ ?].
  - apply map_lookup_filter_None. by left.
Qed.

(** X27. A restored store is a fixed point of checkpointing: dumping it and
    picking the result up gives the same store again, entry for entry. *)
Theorem restore_idempotent (s : store) :
  pick (dump (pick (dump s).1)).1 = pick (dump s).1.
Proof.
  set (r := pick (dump s).1).
  set (P := λ la : loc * ndarray, la.1 ∈ array_refs (in_memory (dict s))).
  assert (in_memory (dict r) = in_memory (dict s)) as Hm
    by apply restored_in_memory.
  assert (r = Store (in_memory (dict s) ∪ dataset_handles 1 (chkfile s))
                    (filter P (heap s)) (chkfile s) 1) as Hr.
  { unfold r, pick, dump, P, in_memory.
    cbn [fst h5_file dat_file pk_dict pk_heap pickle_dump init dict heap
         chkfile session set_dict].
    by rewrite !(right_id_L ∅ (∪)). }
  change (pick (dump r).1)
    with (Store (in_memory (dict r) ∪ (dataset_handles 1 (chkfile r) ∪ ∅))
                (filter (λ la : loc * ndarray,
                           la.1 ∈ array_refs (in_memory (dict r))) (heap r) ∪ ∅)
                (chkfile r) 1).
  rewrite Hm. fold P. rewrite !(right_id_L ∅ (∪)).
  rewrite Hr at 1 2 3. cbn [heap chkfile]. by rewrite filter_twice.
Qed.

End StoreInvariant.

Section StoreConsistency.
Import H5 HybridDict Frame.

(** X22. [delete] keeps a store consistent, provided the deleted entry, when it
    is in memory, does not bear the name of a dataset of the file. *)
Theorem delete_keeps_consistent (key : string) (s s' : store) :
  consistent s = true →
  (∀ v, dict s !! key = Some v → is_Dataset v = false →
        links (chkfile s) !! key = None) →
  delete key s = Ok s' →
  consistent s' = true.
Proof.
  intros [H1 H2]%consistent_spec Hmem Hd.
  destruct (dict s !! key) as [v|] eqn:Hk.
  2:{ unfold delete in Hd. by rewrite Hk in Hd. }
  rewrite (delete_inv _ _ _ Hk) in Hd. injection Hd as <-.
  apply consistent_spec. cbn. split.
  - intros k ss d Hkd. destruct (decide (k = key)) as [->|Hne].
    { by rewrite lookup_delete_eq in Hkd. }
    rewrite lookup_delete_ne in Hkd by done.
    destruct (H1 _ _ _ Hkd) as [-> Hl]. split; [done|].
    destruct (is_Dataset v); [by rewrite lookup_delete_ne|done].
  - intros k d Hl. destruct (decide (k = key)) as [->|Hne].
    + destruct (is_Dataset v) eqn:Hv.
      * by rewrite lookup_delete_eq in Hl.
      * rewrite (Hmem _ eq_refl Hv) in Hl. done.
    + rewrite lookup_delete_ne by done. apply (H2 k d).
      destruct (is_Dataset v); [by rewrite lookup_delete_ne in Hl|done].
Qed.

Lemma delete_keeps_consistent_witness :
  consistent (Store {["U_1" := Arr 1]} {[1%positive := NdArray [1] [5%Q]]}
                    (File ∅ {[1%positive := NdArray [2] [1; 2]%Q]}) 0) = true.
Proof.
  apply (delete_keeps_consistent "t_ijab"
           (Store {["t_ijab" := Dset 0 1; "U_1" := Arr 1]}
                  {[1%positive := NdArray [1] [5%Q]]}
                  (File {["t_ijab" := 1%positive]}
                        {[1%positive := NdArray [2] [1; 2]%Q]}) 0)).
  - vm_compute. reflexivity.
  - intros v Hv Hd. vm_compute in Hv. injection Hv as <-. discriminate Hd.
  - vm_compute. reflexivity.
Defined.

(** X23. [dump] keeps the dumping store consistent. *)
Theorem dump_keeps_consistent (s : store) :
  consistent s = true → consistent (dump s).2 = true.
Proof.
  intros [H1 H2]%consistent_spec. apply consistent_spec. split.
  - intros key ss d. rewrite dump_lookup.
    destruct (links (chkfile s) !! key) as [d0|] eqn:Hl.
    + intros [= <- <-]. done.
    + intros Hk. destruct (H1 _ _ _ Hk) as [_ Hl']. cbn in Hl'. congruence.
  - intros key d Hl. rewrite dump_lookup. cbn in Hl. rewrite Hl. by eexists.
Qed.

Lemma dump_keeps_consistent_witness :
  consistent (dump (Store {["t_ijab" := Dset 0 1; "U_1" := Arr 1]}
                          {[1%positive := NdArray [1] [5%Q]]}
                          (File {["t_ijab" := 1%positive]}
                                {[1%positive := NdArray [2] [1; 2]%Q]}) 0)).2
  = true.
Proof. apply dump_keeps_consistent. vm_compute. reflexivity. Defined.

Lemma create_new_name_consistent_witness :
  consistent (Store {["t_ijab" := Dset 0 1]} ∅
                (File {["t_ijab" := 1%positive]}
                      {[1%positive := NdArray [2] [0; 0]%Q]}) 0) = true.
Proof.
  apply (create_new_name_consistent "t_ijab" (Obj PyNone) false (Some [2])
           (init ∅ H5.empty) (Dset 0 1)); [reflexivity..|].
  vm_compute. reflexivity.
Defined.

Lemma dump_preserves_load_witness :
  let s := Store {["t_ijab" := Dset 0 1; "U_1" := Arr 1]}
                 {[1%positive := NdArray [1] [5%Q]]}
                 (File {["t_ijab" := 1%positive]}
                       {[1%positive := NdArray [2] [1; 2]%Q]}) 0 in
  load "t_ijab" (dump s).2 = load "t_ijab" s.
Proof.
  intros s. apply (dump_preserves_load s "t_ijab").
  - vm_compute. reflexivity.
  - intros k v Hk Hv.
    destruct (decide (k = "U_1")) as [->|Hne]; [reflexivity|].
    destruct (decide (k = "t_ijab")) as [->|Hne'].
    + vm_compute in Hk. injection Hk as <-. discriminate Hv.
    + unfold s in Hk. cbn [dict] in Hk.
      rewrite lookup_insert_ne, lookup_singleton_ne in Hk by done.
      discriminate Hk.
Defined.

Lemma create_same_shape_reuses_witness :
  let s := Store {["pdA_G_ia" := Arr 1]}
                 {[1%positive := NdArray [2] [1; 2]%Q]} H5.empty 0 in
  let a := NdArray [2] [1; 2]%Q in
  ∃ s', create "pdA_G_ia" (Obj PyNone) true (Some (shape a)) s = Ok (Arr 1, s')
    ∧ write (Arr 1) (buf (fill_zero a)) s = Ok s'
    ∧ dict s' = dict s
    ∧ load "pdA_G_ia" s' = Ok (Dense (fill_zero a))
    ∧ all_zero (fill_zero a)
    ∧ dom (heap s') = dom (heap s)
    ∧ dom (objs (chkfile s')) = dom (objs (chkfile s))
    ∧ links (chkfile s') = links (chkfile s).
Proof.
  intros s a.
  apply (create_same_shape_reuses "pdA_G_ia" (Obj PyNone) true (Arr 1) a s);
    [reflexivity|reflexivity|discriminate].
Defined.

End StoreConsistency.

(** * Runs of the pipeline that fail *)

Section PipelineFailure.
Import Polar.
Context {state : Type}.
Variable exec : stage → state → result state.
Variable xc : state → string.
Variable xc_type : string → result string.



End PipelineFailure.

Section PipelineFailureExample.
Import Polar.


Example kernel_failing_stage :
  let exec := λ (st : stage) (mf : string),
    if decide (st = prepare_pt2) then Raise KeyError else Ok mf in
  trace (kernel string exec id (λ _, Ok "GGA") "B3LYPg")
  = [run_scf; prepare_H_1; prepare_integral; prepare_xc_kernel; prepare_pt2]
  ∧ final (kernel string exec id (λ _, Ok "GGA") "B3LYPg") = Raise KeyError.
Proof. split; reflexivity. Qed.

End PipelineFailureExample.

Section BiorthogonalizeExample.
Import Biorth.
Local Open Scope Q_scope.

Lemma biorthogonalize_short_circuit_gap_witness :
  let t : tensor := λ b i j, inject_Z (Z.of_nat (i + 2 * j)) in
  Qabs (restricted_biorthogonalize t 1 1 (5 # 100000000) 0%nat 1%nat 2%nat
        - biorthogonal t 1 1 (5 # 100000000) 0%nat 1%nat 2%nat)
  <= tol * Qabs (t 0%nat 2%nat 1%nat).
Proof.
  intros t.
  apply (biorthogonalize_short_circuit_gap t 1 1 (5 # 100000000)
           0%nat 1%nat 2%nat).
  reflexivity.
Defined.

End BiorthogonalizeExample.
